(** * cmr1-cli: the settings merge and the generated log methods of [lib/cli.js]

    A shallow embedding of the [Cli] class: its constructor, [mergeSettings],
    [enableLogging], the closures [enableLogging] attaches to the instance,
    [setOptions], [showHelp], [getHelpSections] and the static [colorize].

    Modelling decisions

    - JavaScript values are trees ([Js.value]): primitives, functions (opaque
      leaves), arrays and objects.  An object carries its class: a plain
      object, or an [Error] instance with the name its prototype supplies.
      Property lists are kept in the enumeration order of [Object.keys].
    - The instance's settings object holds references: [this.settings] maps a
      key to a location of the store, and so does the object that
      [require('../settings.json')] returns (Node caches it, so every
      [Cli.DEFAULT_SETTINGS] read yields the same object).  [Object.assign]
      copies the references; [extend] writes through them.
    - Statements run in a state monad with three completions: normal, a thrown
      value, or [process.exit].
    - The [extend] package is embedded in the one mode the class uses,
      [extend(true, target, source)].  The other packages ([colors/safe],
      [command-line-args], [command-line-usage], the [console] object) are
      collaborators, taken as a record of functions.

    Outside the model: numbers other than integers, sparse arrays (a hole is
    represented by [undefined]), property names [__proto__], accessors and
    symbols, the identity of objects nested inside a settings value or owned
    by the caller (so a generated method keeps the configuration it was
    generated from, and two settings keys never hold one object), the
    switches inside [colors] ([enable], [disable], themes), and white space
    beyond Latin-1 in [String.prototype.trim].  String conversion is exact on
    the values [Js.printable] admits: integers that a JavaScript number holds
    exactly, and no function or own [toString] member. *)

From Stdlib Require Import ZArith Lia String Ascii List DecimalString.
From stdpp Require Import base list strings.

Local Open Scope string_scope.
Local Open Scope list_scope.
Local Set Warnings "-register-all".

(** ** JavaScript values *)

Module Js.

Inductive objclass :=
  | Plain
  | ErrorInst (name : string).

Inductive value :=
  | VUndef
  | VNull
  | VBool (b : bool)
  | VNum (n : Z)
  | VStr (s : string)
  | VFun (name : string)
  | VArr (elems : list value)
  | VObj (cls : objclass) (props : list (string * value)).

(** The results of the [typeof] operator. *)
Inductive jstype :=
  | TUndefined | TObject | TBoolean | TNumber | TString | TFunction.

Definition typeof (v : value) : jstype :=
  match v with
  | VUndef => TUndefined
  | VNull => TObject
  | VBool _ => TBoolean
  | VNum _ => TNumber
  | VStr _ => TString
  | VFun _ => TFunction
  | VArr _ => TObject
  | VObj _ _ => TObject
  end.

Definition jstype_eqb (a b : jstype) : bool :=
  match a, b with
  | TUndefined, TUndefined | TObject, TObject | TBoolean, TBoolean
  | TNumber, TNumber | TString, TString | TFunction, TFunction => true
  | _, _ => false
  end.

(** [Array.isArray]. *)
Definition isArray (v : value) : bool :=
  match v with VArr _ => true | _ => false end.

(** ToBoolean: what [!v], [v && w] and [if (v)] test. *)
Definition truthy (v : value) : bool :=
  match v with
  | VUndef | VNull => false
  | VBool b => b
  | VNum n => negb (n =? 0)%Z
  | VStr s => negb (String.eqb s EmptyString)
  | VFun _ | VArr _ | VObj _ _ => true
  end.

(** [v === true]. *)
Definition is_true (v : value) : bool :=
  match v with VBool true => true | _ => false end.

(** *** Property lists *)

Section Props.
Context {A : Type}.

Fixpoint obj_get (ps : list (string * A)) (k : string) : option A :=
  match ps with
  | [] => None
  | (j, v) :: rest => if String.eqb j k then Some v else obj_get rest k
  end.

Fixpoint obj_update (ps : list (string * A)) (k : string) (v : A)
  : list (string * A) :=
  match ps with
  | [] => []
  | (j, w) :: rest =>
      if String.eqb j k then (j, v) :: rest else (j, w) :: obj_update rest k v
  end.

End Props.

Definition index_string (n : N) : string :=
  NilZero.string_of_uint (N.to_uint n).

(** A property name is an array index when it is the canonical decimal form
    of an integer below 2^32 - 1.  Such names are enumerated first, in
    ascending order; all other names follow in insertion order. *)
Definition parse_index (k : string) : option N :=
  match NilZero.uint_of_string k with
  | Some u =>
      let n := N.of_uint u in
      if String.eqb (index_string n) k && (n <? 4294967295)%N
      then Some n else None
  | None => None
  end.

Section PropsOrder.
Context {A : Type}.

Fixpoint obj_insert_index (ps : list (string * A)) (n : N) (k : string) (v : A)
  : list (string * A) :=
  match ps with
  | [] => [(k, v)]
  | (j, w) :: rest =>
      match parse_index j with
      | Some m =>
          if (n <? m)%N then (k, v) :: ps
          else (j, w) :: obj_insert_index rest n k v
      | None => (k, v) :: ps
      end
  end.

Definition obj_add (ps : list (string * A)) (k : string) (v : A)
  : list (string * A) :=
  match parse_index k with
  | Some n => obj_insert_index ps n k v
  | None => ps ++ [(k, v)]
  end.

(** [o[k] = v] on the own properties of [o]. *)
Definition obj_set (ps : list (string * A)) (k : string) (v : A)
  : list (string * A) :=
  match obj_get ps k with
  | Some _ => obj_update ps k v
  | None => obj_add ps k v
  end.

End PropsOrder.

(** *** Arrays *)

(** [a[i] = v]: in range the element is replaced, past the end the array
    grows (the skipped positions read as [undefined]). *)
Definition arr_set (a : list value) (i : nat) (v : value) : list value :=
  if (i <? length a)%nat then <[i := v]> a
  else a ++ replicate (i - length a) VUndef ++ [v].

Definition arr_get (a : list value) (i : nat) : value :=
  nth i a VUndef.

(** The entries [(index, element)] of an array, as [for..in] and
    [Object.keys] see them. *)
Fixpoint arr_entries (i : N) (a : list value) : list (string * value) :=
  match a with
  | [] => []
  | v :: rest => (index_string i, v) :: arr_entries (N.succ i) rest
  end.

(** *** Objects *)

(** The members every object inherits from [Object.prototype]; each is a
    function. *)
Definition object_prototype : list string :=
  [ "constructor"; "hasOwnProperty"; "isPrototypeOf"; "propertyIsEnumerable";
    "toLocaleString"; "toString"; "valueOf";
    "__defineGetter__"; "__defineSetter__";
    "__lookupGetter__"; "__lookupSetter__" ].

Definition mem_string (k : string) (l : list string) : bool :=
  existsb (String.eqb k) l.

Definition inherited (k : string) : value :=
  if mem_string k object_prototype then VFun k else VUndef.

(** The [message] of an [Error] instance is an own property that is not
    enumerable. *)
Definition enumerable (cls : objclass) (ps : list (string * value))
  : list (string * value) :=
  match cls with
  | Plain => ps
  | ErrorInst _ => List.filter (fun p => negb (String.eqb (fst p) "message")) ps
  end.

(** The own enumerable entries of a value, in enumeration order. *)
Definition entries (v : value) : list (string * value) :=
  match v with
  | VObj cls ps => enumerable cls ps
  | VArr a => arr_entries 0 a
  | _ => []
  end.

(** [Object.keys(v)] for a value that is not [null] or [undefined]. *)
Definition own_keys (v : value) : list string :=
  map fst (entries v).

(** [v[k]] for an own enumerable key [k] of [v]. *)
Definition own_get (v : value) (k : string) : value :=
  match obj_get (entries v) k with
  | Some w => w
  | None => VUndef
  end.

(** [v.k] for the fixed member names the class reads ([verbose], [prefix],
    [message], [name], ...): an own property, else what the prototype chain
    supplies; [Error.prototype] supplies the [name] of the class and the
    empty string for [message].  [null] and [undefined] have no members (the
    read throws); the caller handles that case. *)
Definition get_prop (v : value) (k : string) : value :=
  match v with
  | VObj cls ps =>
      match obj_get ps k with
      | Some w => w
      | None =>
          match cls with
          | ErrorInst n =>
              if String.eqb k "name" then VStr n
              else if String.eqb k "message" then VStr EmptyString
              else inherited k
          | Plain => inherited k
          end
      end
  | VFun n => if String.eqb k "name" then VStr n else inherited k
  | _ => inherited k
  end.

Definition obj (ps : list (string * value)) : value := VObj Plain ps.

(** [new C(message)] for an error class [C] named [name]. *)
Definition mk_error (name message : string) : value :=
  VObj (ErrorInst name) [("message", VStr message)].

(** *** ToString *)

Definition join (sep : string) (l : list string) : string :=
  String.concat sep l.

Definition error_to_string (name msg : string) : string :=
  if String.eqb name EmptyString then msg
  else if String.eqb msg EmptyString then name
  else name +:+ ": " +:+ msg.

Fixpoint to_string (v : value) : string :=
  match v with
  | VUndef => "undefined"
  | VNull => "null"
  | VBool true => "true"
  | VBool false => "false"
  | VNum n => NilZero.string_of_int (Z.to_int n)
  | VStr s => s
  | VFun n => "function " +:+ n +:+ "() { [native code] }"
  | VArr a =>
      join ","
        (map (fun e =>
                match e with
                | VUndef | VNull => EmptyString
                | _ => to_string e
                end) a)
  | VObj Plain _ => "[object Object]"
  | VObj (ErrorInst n) ps =>
      let field :=
        fix field (k absent undef : string) (ps : list (string * value))
          : string :=
          match ps with
          | [] => absent
          | (j, w) :: rest =>
              if String.eqb j k
              then match w with VUndef => undef | _ => to_string w end
              else field k absent undef rest
          end in
      error_to_string (field "name" n "Error" ps) (field "message" EmptyString EmptyString ps)
  end.



(** *** String.prototype.trim *)

Definition is_space (c : ascii) : bool :=
  let n := nat_of_ascii c in
  (Nat.eqb n 9 || Nat.eqb n 10 || Nat.eqb n 11 || Nat.eqb n 12
   || Nat.eqb n 13 || Nat.eqb n 32 || Nat.eqb n 160)%bool.

(** [s.trim() === ''] *)
Fixpoint blank (s : string) : bool :=
  match s with
  | EmptyString => true
  | String c rest => is_space c && blank rest
  end.

End Js.

Export Js.

(** ** The [extend] package, deep mode *)

Module Extend.

(** [isPlainObject] *)
Definition isPlainObject (v : value) : bool :=
  match v with VObj Plain _ => true | _ => false end.

(** [target[name]] on a property list. *)
Definition src_of (tps : list (string * value)) (name : string) : value :=
  match obj_get tps name with Some w => w | None => VUndef end.

(** The [for (name in options)] loop over the entries of a source object,
    assigning into the properties [tps] of the target.  [assigned src copy] is
    the value the loop body stores at [target[name]], if it stores one. *)
Definition extend_props (assigned : value -> value -> option value)
  : list (string * value) -> list (string * value) -> list (string * value) :=
  fix loop (ops tps : list (string * value)) : list (string * value) :=
    match ops with
    | [] => tps
    | (name, copy) :: rest =>
        let src := src_of tps name in
        loop rest
          (match assigned src copy with
           | Some v => obj_set tps name v
           | None => tps
           end)
    end.

(** The same loop when source and target are arrays: the names are the
    indices of the source, in order. *)
Definition extend_elems (assigned : value -> value -> option value)
  : nat -> list value -> list value -> list value :=
  fix loop (i : nat) (oes tes : list value) : list value :=
    match oes with
    | [] => tes
    | copy :: rest =>
        loop (S i) rest
          (match assigned (arr_get tes i) copy with
           | Some v => arr_set tes i v
           | None => tes
           end)
    end.

(** [src && isPlainObject(src) ? src : {}] and
    [src && isArray(src) ? src : []] *)
Definition clone_object (src : value) : list (string * value) :=
  match src with VObj Plain tps => tps | _ => [] end.

Definition clone_array (src : value) : list value :=
  match src with VArr tes => tes | _ => [] end.

(** The body of the loop: a plain object or an array is merged into a clone
    target (the value already there when it has the same shape, a fresh empty
    one otherwise); [undefined] is not brought in; anything else is assigned
    as it is.  The guard [target !== copy] always passes: a source value is
    never the object being extended. *)
Fixpoint assigned (src copy : value) {struct copy} : option value :=
  match copy with
  | VObj Plain ops =>
      Some (VObj Plain (extend_props assigned ops (clone_object src)))
  | VArr oes =>
      Some (VArr (extend_elems assigned 0 oes (clone_array src)))
  | VUndef => None
  | _ => Some copy
  end.

(** The source values the loop body assigns as they are. *)
Definition assigned_as_is (copy : value) : bool :=
  match copy with
  | VUndef | VArr _ | VObj Plain _ => false
  | _ => true
  end.

(** [extend(true, target, options)] as [mergeSettings] calls it: [target] is
    [null] or an object that is not an array, and so is [options].  A [null]
    target is replaced by a fresh object; [null] options are skipped. *)
Definition extend (target options : value) : value :=
  let '(cls, tps) :=
    match target with
    | VObj cls tps => (cls, tps)
    | _ => (Plain, [])
    end in
  match options with
  | VObj ocls ops => VObj cls (extend_props assigned (enumerable ocls ops) tps)
  | _ => VObj cls tps
  end.

End Extend.

(** ** The [Cli] class *)

Module Cli.

Import Extend.

(** *** Store, instance and control flow *)

Definition loc := nat.

(** A call of a [console] method. *)
Inductive event :=
  | Console (channel : string) (args : list value).

(** The store holds the values that settings objects refer to.  [defaults] is
    the object [require('../settings.json')] evaluates to, [now] the string
    [getTimeStamp] builds from the clock, [out] the console calls made so
    far.  [options], [settings] and [logs] are the instance under
    construction: [logs] maps each generated method to the [methodConfig] its
    closure captured, as it was when the method was generated. *)
Record state := mkState {
  store : list value;
  defaults : list (string * loc);
  now : string;
  out : list event;
  options : list (string * value);
  settings : list (string * loc);
  logs : list (string * value)
}.

Definition with_store (s : state) (x : list value) : state :=
  mkState x (defaults s) (now s) (out s) (options s) (settings s) (logs s).
Definition with_out (s : state) (x : list event) : state :=
  mkState (store s) (defaults s) (now s) x (options s) (settings s) (logs s).
Definition with_options (s : state) (x : list (string * value)) : state :=
  mkState (store s) (defaults s) (now s) (out s) x (settings s) (logs s).
Definition with_settings (s : state) (x : list (string * loc)) : state :=
  mkState (store s) (defaults s) (now s) (out s) (options s) x (logs s).
Definition with_logs (s : state) (x : list (string * value)) : state :=
  mkState (store s) (defaults s) (now s) (out s) (options s) (settings s) x.

Inductive completion (A : Type) :=
  | Normal (a : A)
  | Throw (e : value)
  | Exit (code : Z).
Arguments Normal {A} a.
Arguments Throw {A} e.
Arguments Exit {A} code.

Definition M (A : Type) : Type := state -> state * completion A.

Definition ret {A} (a : A) : M A := fun s => (s, Normal a).
Definition throw {A} (e : value) : M A := fun s => (s, Throw e).
Definition exit {A} (code : Z) : M A := fun s => (s, Exit code).

Definition bind {A B} (m : M A) (f : A -> M B) : M B :=
  fun s =>
    match m s with
    | (s', Normal a) => f a s'
    | (s', Throw e) => (s', Throw e)
    | (s', Exit c) => (s', Exit c)
    end.

#[global] Instance M_ret : MRet M := @ret.
#[global] Instance M_bind : MBind M := fun A B f m => bind m f.

(** [try { body } catch (e) { handler }] *)
Definition try_catch {A} (body : M A) (handler : value -> M A) : M A :=
  fun s =>
    match body s with
    | (s', Throw e) => handler e s'
    | r => r
    end.

(** [l.forEach(f)] *)
Fixpoint forEach {A} (l : list A) (f : A -> M unit) : M unit :=
  match l with
  | [] => ret tt
  | x :: rest => f x ;; forEach rest f
  end.

Definition get : M state := fun s => (s, Normal s).
Definition modify (f : state -> state) : M unit := fun s => (f s, Normal tt).

Definition read (s : state) (l : loc) : value :=
  match store s !! l with Some v => v | None => VUndef end.

Definition alloc (v : value) : M loc :=
  fun s => (with_store s (store s ++ [v]), Normal (length (store s))).

Definition write (l : loc) (v : value) : M unit :=
  modify (fun s => with_store s (<[l := v]> (store s))).

Definition emit (ev : event) : M unit :=
  modify (fun s => with_out s (out s ++ [ev])).

Definition type_error {A} (msg : string) : M A :=
  throw (mk_error "TypeError" msg).

(** [v.k] *)
Definition member (v : value) (k : string) : M value :=
  match v with
  | VUndef | VNull =>
      type_error ("Cannot read properties of " +:+ to_string v
                  +:+ " (reading '" +:+ k +:+ "')")
  | _ => ret (get_prop v k)
  end.

(** [Object.keys(v)] *)
Definition object_keys (v : value) : M (list string) :=
  match v with
  | VUndef | VNull => type_error "Cannot convert undefined or null to object"
  | _ => ret (own_keys v)
  end.

(** [this.settings[k]] *)
Definition setting (s : state) (k : string) : value :=
  match obj_get (settings s) k with
  | Some l => read s l
  | None => inherited k
  end.

(** [Cli.DEFAULT_SETTINGS[k]] *)
Definition default_setting (s : state) (k : string) : value :=
  match obj_get (defaults s) k with
  | Some l => read s l
  | None => inherited k
  end.

(** [this.options.k] *)
Definition option_flag (s : state) (k : string) : value :=
  get_prop (obj (options s)) k.

(** [this.settings[k] = v]: the key refers to a new cell that holds [v].
    Values are trees, so that [v] may be an object which the caller or
    another key holds as well is not represented. *)
Definition assign_setting (k : string) (v : value) : M unit :=
  l ← alloc v;
  modify (fun s => with_settings s (obj_set (settings s) k l)).

(** The collaborators: [console_has m] is [typeof console[m] === 'function'];
    [color_fn c] is [colors[c]] when that is a function, own or inherited:
    applied to a string it makes console calls (none, for most), and then
    returns a value or throws one; [clArgs] and [getUsage] return a value or
    throw one. *)
Inductive result (A : Type) :=
  | Returns (a : A)
  | Raises (e : value).
Arguments Returns {A} a.
Arguments Raises {A} e.

Record collab := mkCollab {
  console_has : string -> bool;
  color_fn : string -> option (string -> list event * result value);
  clArgs : value -> result (list (string * value));
  getUsage : value -> result value
}.

Definition call {A} (r : result A) : M A :=
  match r with
  | Returns a => ret a
  | Raises e => throw e
  end.

(** A style of [colors] ([red], [bold], ...): it maps a string to a string
    and does nothing else. *)
Definition style (f : string -> string) : string -> list event * result value :=
  fun x => ([], Returns (VStr (f x))).

(** *** mergeSettings *)

Definition mismatch_message (key : string) : string :=
  "Cannot override setting: '" +:+ key +:+ "' ... Type did not match!".

Definition invalid_message : string :=
  "Invalid settings provided to merge function!".

(** [this.settings[key].concat(val)] for two arrays. *)
Definition concat (d o : value) : value :=
  match d, o with
  | VArr a, VArr b => VArr (a ++ b)
  | _, _ => d
  end.

(** The body of the [forEach] callback of [mergeSettings]. *)
Definition merge_key (settings : value) (key : string) : M unit :=
  s ← get;
  let val := own_get settings key in
  let cur := setting s key in
  if jstype_eqb (typeof cur) (typeof val) then
    match typeof val with
    | TObject =>
        if isArray cur && isArray val then
          assign_setting key (concat cur val)
        else if negb (isArray cur) && negb (isArray val) then
          match cur, obj_get (Cli.settings s) key with
          | VObj _ _, Some l =>
              (* extend mutates the target and returns it *)
              write l (extend cur val)
          | _, _ =>
              (* a null target: extend returns a new object *)
              assign_setting key (extend cur val)
          end
        else
          throw (mk_error "Error" (mismatch_message key))
    | _ => assign_setting key val
    end
  else if jstype_eqb (typeof cur) TUndefined then
    assign_setting key val
  else
    ret tt.

Definition mergeSettings (settings : value) : M unit :=
  let settings := match settings with VUndef => obj [] | _ => settings end in
  if jstype_eqb (typeof settings) TObject then
    keys ← object_keys settings;
    forEach keys (merge_key settings)
  else
    throw (mk_error "Error" invalid_message).

Section WithCollaborators.

Variable E : collab.

(** *** colorize *)

Definition paint (f : string -> string) (v : value) : value :=
  match v with
  | VStr x => VStr (f x)
  | _ => v
  end.

(** [colors[color](x)] *)
Definition apply_color (g : string -> list event * result value) (x : string)
  : M value :=
  forEach (fst (g x)) emit ;;
  call (snd (g x)).

(** The body of the two [forEach] callbacks: an item that is a string is
    overwritten with what the color function returns for it. *)
Definition recolor (g : string -> list event * result value) (v : value)
  : M value :=
  match v with
  | VStr x => apply_color g x
  | _ => ret v
  end.

(** [args.forEach((arg, i) => ...)] on the elements of an array. *)
Fixpoint recolor_elems (g : string -> list event * result value)
    (a : list value) : M (list value) :=
  match a with
  | [] => ret []
  | v :: rest =>
      w ← recolor g v;
      rest' ← recolor_elems g rest;
      ret (w :: rest')
  end.

(** [Object.keys(args).forEach(key => ...)] on the properties of an object:
    the enumerable ones, in their order. *)
Fixpoint recolor_props (g : string -> list event * result value)
    (keys : list string) (ps : list (string * value))
  : M (list (string * value)) :=
  match ps with
  | [] => ret []
  | (k, v) :: rest =>
      w ← (if mem_string k keys then recolor g v else ret v);
      rest' ← recolor_props g keys rest;
      ret ((k, w) :: rest')
  end.

(** [Cli.colorize(args, color)].  [color.trim] exists on strings only. *)
Definition colorize (args : value) (color : value) : M value :=
  match color with
  | VStr c =>
      match (if blank c then None else color_fn E c) with
      | Some g =>
          match args with
          | VStr x => apply_color g x
          | VArr a => a' ← recolor_elems g a; ret (VArr a')
          | VObj cls ps =>
              ps' ← recolor_props g (map fst (enumerable cls ps)) ps;
              ret (VObj cls ps')
          | VNull => type_error "Cannot convert undefined or null to object"
          | _ => ret args
          end
      | None => ret args
      end
  | VUndef | VNull =>
      type_error ("Cannot read properties of " +:+ to_string color
                  +:+ " (reading 'trim')")
  | _ => type_error "color.trim is not a function"
  end.

(** The elements of the array [colorize] returns for an array argument. *)
Definition colorize_list (args : list value) (color : value) : M (list value) :=
  r ← colorize (VArr args) color;
  ret (match r with VArr a => a | _ => args end).

(** *** The generated log methods *)

Definition collision_message (method : string) : string :=
  "Cannot override method for logging: '" +:+ method
  +:+ "' ... it already exists!".

(** The own properties the constructor assigns before [enableLogging] runs,
    and the methods of [Cli.prototype]. *)
Definition own_members : list string :=
  [ "options"; "settings"; "select"; "prompt"; "confirm" ].

Definition class_members : list string :=
  [ "constructor"; "mergeSettings"; "enableLogging"; "setOptions";
    "getOptions"; "getHelpSections"; "getTimeStamp"; "showHelp" ].

(** [typeof this[method] !== 'undefined'] *)
Definition has_member (s : state) (method : string) : bool :=
  match obj_get (logs s) method with
  | Some _ => true
  | None =>
      mem_string method own_members
      || mem_string method class_members
      || mem_string method object_prototype
      || String.eqb method "__proto__"
  end.

(** The gate [(!methodConfig.verbose || this.options.verbose) &&
    !this.options.quiet]. *)
Definition visible (verbose : value) (s : state) : bool :=
  (negb (truthy verbose) || truthy (option_flag s "verbose"))
  && negb (truthy (option_flag s "quiet")).

(** The test [methodConfig.throws === true && !(this.settings.allowForceNoThrow
    && this.options.force)]. *)
Definition escalates (methodConfig : value) (s : state) : bool :=
  is_true (get_prop methodConfig "throws")
  && negb (truthy (setting s "allowForceNoThrow")
           && truthy (option_flag s "force")).

(** The closure [(...args) => { ... }] that [enableLogging] stores at
    [this[method]].  [colorize] overwrites the elements of [args] in place, and
    [output] starts as the same array: the [args] thrown at the end is the
    colorized one. *)
Definition log_method (method : string) (methodConfig : value)
    (args : list value) : M unit :=
  verbose ← member methodConfig "verbose";
  s ← get;
  if visible verbose s then
    let consoleMethod := if console_has E method then method else "log" in
    let prefix :=
      match get_prop methodConfig "prefix" with VStr p => p | _ => EmptyString end in
    let color :=
      match color_fn E (to_string (get_prop methodConfig "color")) with
      | Some _ => get_prop methodConfig "color"
      | None => VStr EmptyString
      end in
    args ← colorize_list args color;
    let output := args in
    output ←
      (if negb (blank prefix)
       then p ← colorize_list [VStr prefix] color; ret (p ++ output)
       else ret output);
    output ←
      (if truthy (get_prop methodConfig "stamp")
       then
         let timeStamp := now s in
         t ← colorize_list [VStr ("[" +:+ timeStamp +:+ "]")] color;
         ret (t ++ output)
       else ret output);
    emit (Console consoleMethod output) ;;
    s ← get;
    if escalates methodConfig s
    then throw (mk_error "Error" (to_string (VArr args)))
    else ret tt
  else ret tt.

(** [this[method](...args)] for a name that need not be defined. *)
Definition call_method (method : string) (args : list value) : M unit :=
  s ← get;
  match obj_get (logs s) method with
  | Some methodConfig => log_method method methodConfig args
  | None => type_error ("this." +:+ method +:+ " is not a function")
  end.

(** *** enableLogging *)

(** The body of the [forEach] callback of [enableLogging].  The closure is
    recorded with the [methodConfig] it captures, as that object is now; what
    a later merge writes into the object is not followed. *)
Definition attach_method (logging : value) (method : string) : M unit :=
  let methodConfig := own_get logging method in
  s ← get;
  if has_member s method
  then throw (mk_error "Error" (collision_message method))
  else modify (fun s => with_logs s (obj_set (logs s) method methodConfig)).

Definition enableLogging : M unit :=
  s ← get;
  let logging := setting s "logging" in
  if jstype_eqb (typeof logging) TObject then
    keys ← object_keys logging;
    forEach keys (attach_method logging)
  else ret tt.

(** *** setOptions, getHelpSections, showHelp *)

Definition setOptions : M unit :=
  s ← get;
  o ← call (clArgs E (setting s "optionDefinitions"));
  modify (fun s => with_options s o).

(** [getOptions()] *)
Definition getOptions (s : state) : value := obj (options s).

Definition getHelpSections (s : state) : value :=
  VArr [ obj [("header", setting s "name");
              ("content", setting s "description")];
         obj [("header", setting s "helpHeader");
              ("optionList", setting s "optionDefinitions")] ].

Definition showHelp {A} : M A :=
  s ← get;
  usage ← call (getUsage E (getHelpSections s));
  emit (Console "log" [usage]) ;;
  exit 0%Z.

(** *** constructor *)

(** The [catch (e)] block. *)
Definition on_error (e : value) : M unit :=
  modify (fun s => with_options s (obj_set (options s) "force" (VBool true))) ;;
  s ← get;
  let logger (args : list value) : M unit :=
    match obj_get (logs s) "error" with
    | Some methodConfig => log_method "error" methodConfig args
    | None => emit (Console "error" args)
    end in
  message ← member e "message";
  (if jstype_eqb (typeof message) TString then logger [message]
   else
     let name := get_prop e "name" in
     if jstype_eqb (typeof name) TString then logger [name]
     else logger [e]) ;;
  call_method "debug" [VStr "Caught Error:"; e] ;;
  showHelp.

Definition constructor (settings : value) : M unit :=
  let settings := match settings with VUndef => obj [] | _ => settings end in
  try_catch
    ( modify (fun s => with_options s []) ;;
      modify (fun s => with_settings s (defaults s)) ;;
      mergeSettings settings ;;
      enableLogging ;;
      setOptions )
    on_error ;;
  s ← get;
  if truthy (option_flag s "help") then showHelp else ret tt.

(** [new Cli(settings)]: the instance fields are those of a new object. *)
Definition new_Cli (settings : value) : M unit :=
  modify (fun s => with_logs (with_settings (with_options s []) []) []) ;;
  constructor settings.

End WithCollaborators.

End Cli.

(** ** Sample documents and collaborators

    [settings.json] is not part of the sources at hand; the definitions of the
    class take the parsed document from the state.  The samples below are used
    to run the definitions on concrete inputs. *)

Module Sample.

Import Cli.

(** The state after [require('../settings.json')] has parsed a document: one
    store cell per top-level value. *)
Fixpoint bind_from (i : nat) (doc : list (string * value))
  : list (string * loc) :=
  match doc with
  | [] => []
  | (k, _) :: rest => (k, i) :: bind_from (S i) rest
  end.

Definition boot (doc : list (string * value)) (clock : string) : state :=
  mkState (map snd doc) (bind_from 0 doc) clock [] [] [] [].

(** An instance whose settings are the given document, after
    [this.settings = Object.assign({}, Cli.DEFAULT_SETTINGS)]. *)
Definition fresh (doc : list (string * value)) : state :=
  with_settings (boot doc "1/1/2020 12:00:00 PM") (bind_from 0 doc).

Definition esc : string := String (ascii_of_nat 27) EmptyString.

Definition ansi (code : string) (x : string) : string :=
  esc +:+ "[" +:+ code +:+ "m" +:+ x +:+ esc +:+ "[39m".

Definition palette (c : string)
  : option (string -> list event * result value) :=
  if String.eqb c "red" then Some (style (ansi "31"))
  else if String.eqb c "yellow" then Some (style (ansi "33"))
  else if String.eqb c "cyan" then Some (style (ansi "36"))
  else None.

(** Members of [colors] that are functions but not styles: [enable] switches
    coloring on and returns [undefined]; [stylize], called without a style,
    fails on a read of [undefined]. *)
Definition members (c : string)
  : option (string -> list event * result value) :=
  if String.eqb c "enable" then Some (fun _ => ([], Returns VUndef))
  else if String.eqb c "stylize"
  then Some (fun _ =>
               ([], Raises (mk_error "TypeError"
                              "Cannot read properties of undefined (reading 'open')")))
  else palette c.

Definition channels (m : string) : bool :=
  mem_string m ["log"; "info"; "warn"; "error"; "debug"; "trace"; "dir"].

(** No process arguments: the parser returns an empty options object. *)
Definition quiet_run : collab :=
  mkCollab channels palette (fun _ => Returns []) (fun _ => Returns (VStr "usage")).

(** The process was started with [--help]. *)
Definition asked_for_help : collab :=
  mkCollab channels palette (fun _ => Returns [("help", VBool true)])
    (fun _ => Returns (VStr "usage")).

(** The same, with the members of [colors] that are not styles. *)
Definition whole_colors : collab :=
  mkCollab channels members (fun _ => Returns []) (fun _ => Returns (VStr "usage")).

(** The usage renderer rejects the sections it is given. *)
Definition broken_usage : collab :=
  mkCollab channels palette (fun _ => Returns [("help", VBool true)])
    (fun _ => Raises (mk_error "TypeError" "Cannot read properties of undefined")).

(** The parser rejects the process arguments. *)
Definition bad_argv : collab :=
  mkCollab channels palette
    (fun _ => Raises (mk_error "UNKNOWN_OPTION" "Unknown option: --nope"))
    (fun _ => Returns (VStr "usage")).

Definition warn_config : value :=
  obj [("verbose", VBool true); ("prefix", VStr "WARN");
       ("color", VStr "yellow"); ("stamp", VBool true)].

Definition error_config : value :=
  obj [("verbose", VBool false); ("throws", VBool true);
       ("prefix", VStr "ERROR"); ("color", VStr "red")].

Definition debug_config : value :=
  obj [("verbose", VBool true); ("prefix", VStr "DEBUG");
       ("color", VStr "cyan")].

Definition document : list (string * value) :=
  [ ("name", VStr "cli");
    ("description", VStr "A command line tool");
    ("helpHeader", VStr "Options");
    ("allowForceNoThrow", VBool true);
    ("logging",
      obj [("log", obj [("verbose", VBool false)]);
           ("warn", warn_config);
           ("error", error_config);
           ("debug", debug_config)]);
    ("optionDefinitions",
      VArr [ obj [("name", VStr "help"); ("alias", VStr "h");
                  ("type", VFun "Boolean")];
             obj [("name", VStr "verbose"); ("alias", VStr "v");
                  ("type", VFun "Boolean")] ]) ].

(** An instance in use: the sample settings, the given parsed options and
    the given generated methods. *)
Definition session (opts methods : list (string * value)) : state :=
  with_logs (with_options (fresh document) opts) methods.

Definition colliding_methods : value :=
  obj [("notice", obj [("verbose", VBool false)]);
       ("options", obj [("verbose", VBool false)]);
       ("trace", obj [("verbose", VBool true)])].

(** Overrides used as concrete inputs. *)
Definition more_options : value :=
  obj [("optionDefinitions",
        VArr [ obj [("name", VStr "help"); ("alias", VStr "h");
                    ("type", VFun "Boolean")];
               obj [("name", VStr "file"); ("type", VFun "String")] ])].

Definition mistyped_name : value :=
  obj [("name", VNum 1); ("description", VStr "renamed")].

Definition list_for_logging : value :=
  obj [("name", VStr "tool"); ("logging", VArr [VStr "warn"]);
       ("description", VStr "never reached")].

Definition paths_document : list (string * value) :=
  [ ("paths",
      obj [("root", VStr "/srv");
           ("include", VArr [VStr "a"; VStr "b"]);
           ("cache", obj [("dir", VStr "tmp"); ("ttl", VNum 60)])]) ].

Definition paths_override : value :=
  obj [("paths",
        obj [("include", VArr [VStr "c"]);
             ("cache", obj [("ttl", VNum 5)]);
             ("depth", VNum 2);
             ("root", VUndef)])].


Definition extra_method : value :=
  obj [("logging", obj [("extra", obj [("verbose", VBool false)])])].


End Sample.

(** ** Invariant of the instance and the effects of an assignment *)

Module Inv.

Import Cli.

(** Distinct settings keys refer to distinct cells, and every key refers to an
    allocated cell: the settings share no object among themselves.  It holds
    after [Object.assign({}, Cli.DEFAULT_SETTINGS)] on a parsed document, and
    from then on for as long as no caller passes one object under two keys,
    or an object the settings already hold. *)
Definition wf (s : state) : Prop :=
  (forall j k l,
      obj_get (settings s) j = Some l -> obj_get (settings s) k = Some l ->
      j = k)
  /\ (forall k l, obj_get (settings s) k = Some l -> l < length (store s)).

(** The state after [this.settings[k] = v]. *)
Definition bound (s : state) (k : string) (v : value) : state :=
  with_settings (with_store s (store s ++ [v]))
    (obj_set (settings s) k (length (store s))).

(** The state after the object in cell [l] has been mutated into [v]. *)
Definition written (s : state) (l : loc) (v : value) : state :=
  with_store s (<[l := v]> (store s)).

(** What one round of the [forEach] in [mergeSettings] can do to the state:
    nothing, an assignment to the key, or a mutation of the object the key
    refers to. *)
Inductive key_effect (s : state) (k : string) : state -> Prop :=
  | KeySkipped : key_effect s k s
  | KeyBound v : key_effect s k (bound s k v)
  | KeyWritten l v :
      obj_get (settings s) k = Some l -> key_effect s k (written s l v).

(** The keys that [forEach] visits after [k]. *)
Fixpoint keys_after (k : string) (keys : list string) : list string :=
  match keys with
  | [] => []
  | j :: rest => if String.eqb j k then rest else keys_after k rest
  end.

(** [typeof d === 'object' && typeof o === 'object'] with exactly one of the
    two an array. *)
Definition structure_mismatch (d o : value) : bool :=
  jstype_eqb (typeof d) TObject && jstype_eqb (typeof o) TObject
  && xorb (isArray d) (isArray o).

(** [c] names the style [f] of [colors]. *)
Definition names_style (E : collab) (c : string) (f : string -> string)
  : Prop :=
  exists g, color_fn E c = Some g /\ forall x, g x = style f x.

(** What [color] does to the strings [colorize] is given, for the colors that
    leave it at that: [Some f] for a name of the style [f], [None] for a
    blank string and for a string that names no function of [colors].  A
    name of any other function of [colors] is not covered. *)
Definition colors_with (E : collab) (c : string)
    (h : option (string -> string)) : Prop :=
  match h with
  | Some f => blank c = false /\ names_style E c f
  | None => blank c = true \/ color_fn E c = None
  end.

(** The same for the [color] of a method configuration, which is such a
    string or is absent ([colors.undefined] is no function). *)
Definition paints (E : collab) (methodConfig : value)
    (h : option (string -> string)) : Prop :=
  match get_prop methodConfig "color" with
  | VStr c => colors_with E c h
  | VUndef => color_fn E "undefined" = None /\ h = None
  | _ => False
  end.

Definition tint (h : option (string -> string)) (v : value) : value :=
  match h with
  | Some f => paint f v
  | None => v
  end.

(** The sequence a visible call hands to the console: the stamp, the prefix,
    the arguments. *)
Definition stamp_part (h : option (string -> string)) (methodConfig : value)
    (s : state) : list value :=
  if truthy (get_prop methodConfig "stamp")
  then [tint h (VStr ("[" +:+ now s +:+ "]"))]
  else [].

Definition prefix_part (h : option (string -> string)) (methodConfig : value)
  : list value :=
  match get_prop methodConfig "prefix" with
  | VStr p => if blank p then [] else [tint h (VStr p)]
  | _ => []
  end.

Definition emitted (h : option (string -> string)) (methodConfig : value)
    (s : state) (args : list value) : list value :=
  stamp_part h methodConfig s ++ prefix_part h methodConfig
  ++ map (tint h) args.

Definition channel (E : collab) (method : string) : string :=
  if console_has E method then method else "log".

(** The instance when the constructor calls [mergeSettings]: no options, no
    generated method, the settings a copy of the defaults' references. *)
Definition entry_state (s : state) : state :=
  mkState (store s) (defaults s) (now s) (out s) [] (defaults s) [].


End Inv.

(** ** The claims of the specification that the code does not meet, as the
    specification words them *)

Module Stated.

Import Cli Inv.

(** "For all keys present in override with a type differing from the default's
    type at that key, merge fails with a type-mismatch error and commits no
    change for that key or any key after it in iteration order." *)
Definition type_mismatch_aborts (s : state) (overrides : value) (k : string)
  : Prop :=
  (exists e, snd (mergeSettings overrides s) = Throw e)
  /\ (forall j, In j (k :: keys_after k (own_keys overrides)) ->
        setting (fst (mergeSettings overrides s)) j = setting s j).

(** "top-level overrides argument that is not a mapping itself: fail with
    InvalidSettingsArgument before any key processing." *)
Definition is_mapping (v : value) : bool :=
  match v with VObj _ _ => true | _ => false end.

Definition rejects_argument (s : state) (overrides : value) : Prop :=
  mergeSettings overrides s = (s, Throw (mk_error "Error" invalid_message)).

(** "a recursive deep combine: keys present only in the default are preserved,
    keys present only in the override are added, and keys present in both
    recurse per this same rule", override values winning at the leaves. *)
Inductive deep_combined
  : list (string * value) -> list (string * value) -> list (string * value)
    -> Prop :=
  | DeepCombined d o r :
      (forall j, combined_at (obj_get d j) (obj_get o j) (obj_get r j)) ->
      deep_combined d o r
with combined_at : option value -> option value -> option value -> Prop :=
  | AtNeither : combined_at None None None
  | AtDefault dv : combined_at (Some dv) None (Some dv)
  | AtOverride ov : combined_at None (Some ov) (Some ov)
  | AtBoth dps ops rps :
      deep_combined dps ops rps ->
      combined_at (Some (VObj Plain dps)) (Some (VObj Plain ops))
                  (Some (VObj Plain rps))
  | AtLeaf dv ov :
      Extend.isPlainObject dv && Extend.isPlainObject ov = false ->
      combined_at (Some dv) (Some ov) (Some ov).



End Stated.

(** ** Further predicates on states and values *)

Module Props.

Import Cli Inv.

Definition is_object (v : value) : bool :=
  match v with VObj _ _ => true | _ => false end.

(** A settings key refers to a cell of the defaults only under its own name,
    and the defaults refer to allocated cells.  It holds once
    [this.settings = Object.assign({}, Cli.DEFAULT_SETTINGS)] has run on a
    parsed document. *)
Definition defaults_guarded (s : state) : Prop :=
  (forall j k l,
      obj_get (settings s) j = Some l -> obj_get (defaults s) k = Some l ->
      j = k)
  /\ (forall k l, obj_get (defaults s) k = Some l -> l < length (store s)).

(** What the [catch] block hands to its logger: [e.message] when that is a
    string, else [e.name] when that is a string, else [e]. *)
Definition reported (e : value) : value :=
  if jstype_eqb (typeof (get_prop e "message")) TString
  then get_prop e "message"
  else if jstype_eqb (typeof (get_prop e "name")) TString
  then get_prop e "name"
  else e.

(** [v] is neither [null] nor [undefined]: its members can be read. *)
Definition has_members (v : value) : bool :=
  match v with VUndef | VNull => false | _ => true end.

(** The fields of the environment: the key table of the defaults, the clock
    and the console. *)
Definition same_process (s s' : state) : Prop :=
  defaults s' = defaults s /\ now s' = now s /\ out s' = out s.

(** The statements inside [try { }] of the constructor, and the statement
    after the [catch] block. *)
Definition try_body (E : collab) (settings : value) : M unit :=
  modify (fun s => with_options s []) ;;
  modify (fun s => with_settings s (defaults s)) ;;
  mergeSettings settings ;;
  enableLogging ;;
  setOptions E.

Definition help_check (E : collab) : M unit :=
  s ← get;
  if truthy (option_flag s "help") then showHelp E else ret tt.

(** The argument after the default parameter [settings = {}]. *)
Definition or_empty (settings : value) : value :=
  match settings with VUndef => obj [] | _ => settings end.

(** The state after [this.options.force = true]. *)
Definition forced (s : state) : state :=
  with_options s (obj_set (options s) "force" (VBool true)).

(** The state after a log method has printed what its gate lets through. *)
Definition said (E : collab) (h : option (string -> string))
    (method : string) (methodConfig : value) (args : list value) (s : state)
  : state :=
  if visible (get_prop methodConfig "verbose") s
  then with_out s
         (out s ++ [Console (channel E method) (emitted h methodConfig s args)])
  else s.

(** Every way the computation ends the process is the help screen: exit
    code 0, right after [console.log] has been given the usage text, which is
    what [getUsage] returns for the help sections of the settings the
    instance has at that point. *)
Definition exits_with_help (E : collab) {A} (m : M A) : Prop :=
  forall s s' c,
    m s = (s', Exit c) ->
    c = 0%Z
    /\ exists u before,
         getUsage E (getHelpSections s') = Returns u
         /\ out s' = before ++ [Console "log" [u]].

(** The computation never completes normally. *)
Definition never_returns {A} (m : M A) : Prop :=
  forall s s' a, m s <> (s', Normal a).

End Props.

Module ObjFacts.

Section Lookup.
Context {A : Type}.
Implicit Types (ps : list (string * A)) (k j : string) (v : A).

Lemma obj_get_app ps qs j :
  obj_get (ps ++ qs) j =
  match obj_get ps j with Some w => Some w | None => obj_get qs j end.
Proof.
  induction ps as [|[i w] ps IH]; simpl; [done|].
  destruct (String.eqb i j); [done|apply IH].
Qed.

Lemma obj_get_update ps k v j :
  obj_get (obj_update ps k v) j =
  if String.eqb k j
  then match obj_get ps k with Some _ => Some v | None => None end
  else obj_get ps j.
Proof.
  induction ps as [|[i w] ps IH]; simpl.
  - by destruct (String.eqb k j).
  - destruct (String.eqb_spec i k) as [->|Hik]; simpl.
    + by destruct (String.eqb_spec k j).
    + destruct (String.eqb_spec i j) as [->|Hij]; simpl.
      * destruct (String.eqb_spec k j) as [->|]; [done|done].
      * apply IH.
Qed.

Lemma obj_get_insert_index ps n k v j :
  obj_get ps k = None ->
  obj_get (obj_insert_index ps n k v) j =
  if String.eqb k j then Some v else obj_get ps j.
Proof.
  induction ps as [|[i w] ps IH]; simpl; intros Hk.
  - done.
  - destruct (String.eqb_spec i k) as [->|Hik]; [done|].
    destruct (parse_index i) as [m|]; [destruct (n <? m)%N|]; simpl;
      try done.
    destruct (String.eqb_spec i j) as [->|Hij].
    + by destruct (String.eqb_spec k j) as [->|].
    + by apply IH.
Qed.

Lemma obj_get_set ps k v j :
  obj_get (obj_set ps k v) j =
  if String.eqb k j then Some v else obj_get ps j.
Proof.
  unfold obj_set. destruct (obj_get ps k) as [w|] eqn:Hk.
  - rewrite obj_get_update, Hk. done.
  - unfold obj_add. destruct (parse_index k) as [n|].
    + by apply obj_get_insert_index.
    + rewrite obj_get_app. simpl.
      destruct (String.eqb_spec k j) as [->|].
      * by rewrite Hk.
      * by destruct (obj_get ps j).
Qed.

Lemma obj_get_set_eq ps k v : obj_get (obj_set ps k v) k = Some v.
Proof. by rewrite obj_get_set, String.eqb_refl. Qed.

Lemma obj_get_set_ne ps k v j :
  k <> j -> obj_get (obj_set ps k v) j = obj_get ps j.
Proof.
  intros H. rewrite obj_get_set.
  by destruct (String.eqb_spec k j).
Qed.

Lemma obj_get_None ps j : ~ In j (map fst ps) -> obj_get ps j = None.
Proof.
  induction ps as [|[i w] ps IH]; simpl; [done|].
  intros H. destruct (String.eqb_spec i j) as [->|]; [tauto|].
  apply IH. tauto.
Qed.

Lemma obj_get_Some ps j : In j (map fst ps) -> exists w, obj_get ps j = Some w.
Proof.
  induction ps as [|[i w] ps IH]; simpl; [done|].
  intros H. destruct (String.eqb_spec i j) as [->|]; [eauto|].
  apply IH. tauto.
Qed.

Lemma obj_get_In ps j w : obj_get ps j = Some w -> In j (map fst ps).
Proof.
  induction ps as [|[i u] ps IH]; simpl; [done|].
  destruct (String.eqb_spec i j) as [->|]; [tauto|]. intros; right; auto.
Qed.

End Lookup.
End ObjFacts.

(** ** Reading settings across an assignment *)

Module StateFacts.

Import Cli Inv ObjFacts.

Lemma read_bound_new s k v : read (bound s k v) (length (store s)) = v.
Proof.
  unfold read, bound; simpl.
  rewrite lookup_app_r by lia. by rewrite Nat.sub_diag.
Qed.

Lemma read_bound_old s k v l :
  l < length (store s) -> read (bound s k v) l = read s l.
Proof. intros H. unfold read, bound; simpl. by rewrite lookup_app_l. Qed.

Lemma setting_bound_eq s k v : setting (bound s k v) k = v.
Proof.
  unfold setting. simpl. rewrite obj_get_set_eq. apply read_bound_new.
Qed.

Lemma setting_bound_ne s k v j :
  wf s -> k <> j -> setting (bound s k v) j = setting s j.
Proof.
  intros [_ Hb] Hne. unfold setting. simpl.
  rewrite obj_get_set_ne by done.
  destruct (obj_get (settings s) j) as [l|] eqn:Hj; [|done].
  apply read_bound_old. eauto.
Qed.

Lemma wf_bound s k v : wf s -> wf (bound s k v).
Proof.
  intros [Hi Hb]. split; simpl.
  - intros i j l. rewrite !obj_get_set.
    destruct (String.eqb_spec k i) as [Hki|Hki];
      destruct (String.eqb_spec k j) as [Hkj|Hkj]; try congruence.
    + intros [= <-] Hj. apply Hb in Hj. lia.
    + intros Hi' [= <-]. apply Hb in Hi'. lia.
    + apply Hi.
  - intros j l. rewrite obj_get_set, length_app. simpl.
    destruct (String.eqb_spec k j) as [->|Hkj].
    + intros [= <-]. lia.
    + intros Hj. apply Hb in Hj. lia.
Qed.

Lemma setting_written_eq s k l v :
  wf s -> obj_get (settings s) k = Some l -> setting (written s l v) k = v.
Proof.
  intros [_ Hb] Hk. unfold setting, read. simpl. rewrite Hk.
  rewrite list_lookup_insert_eq; [done|eauto].
Qed.

Lemma setting_written_ne s k l v j :
  wf s -> obj_get (settings s) k = Some l -> k <> j ->
  setting (written s l v) j = setting s j.
Proof.
  intros [Hi _] Hk Hne. unfold setting, read. simpl.
  destruct (obj_get (settings s) j) as [l'|] eqn:Hj; [|done].
  rewrite list_lookup_insert_ne; [done|].
  intros ->. apply Hne. eauto.
Qed.

Lemma wf_written s l v : wf s -> wf (written s l v).
Proof.
  intros [Hi Hb]. split; simpl; [done|].
  intros k l' Hk. rewrite length_insert. eauto.
Qed.

Lemma run_assign k v s : assign_setting k v s = (bound s k v, Normal tt).
Proof. reflexivity. Qed.

Lemma run_write l v s : write l v s = (written s l v, Normal tt).
Proof. reflexivity. Qed.

Lemma merge_key_effect ov k s : key_effect s k (fst (merge_key ov k s)).
Proof.
  unfold merge_key, mbind, M_bind, bind, get. simpl.
  destruct (jstype_eqb (typeof (setting s k)) (typeof (own_get ov k))).
  - destruct (typeof (own_get ov k)); rewrite ?run_assign; try apply KeyBound.
    destruct (isArray (setting s k) && isArray (own_get ov k));
      [rewrite run_assign; apply KeyBound|].
    destruct (negb (isArray (setting s k)) && negb (isArray (own_get ov k)));
      [|apply KeySkipped].
    destruct (setting s k); rewrite ?run_assign; try apply KeyBound.
    destruct (obj_get (settings s) k) eqn:Hk;
      [|rewrite run_assign; apply KeyBound].
    rewrite run_write. by apply KeyWritten.
  - destruct (jstype_eqb (typeof (setting s k)) TUndefined);
      [rewrite run_assign; apply KeyBound|apply KeySkipped].
Qed.

Lemma key_effect_frame s k s' j :
  wf s -> key_effect s k s' -> k <> j -> setting s' j = setting s j.
Proof.
  intros Hwf [ |v|l v Hl] Hne; [done| |].
  - by apply setting_bound_ne.
  - by eapply setting_written_ne.
Qed.

Lemma key_effect_wf s k s' : wf s -> key_effect s k s' -> wf s'.
Proof.
  intros Hwf [ |v|l v Hl]; [done| |].
  - by apply wf_bound.
  - by apply wf_written.
Qed.

(** The rounds for keys other than [j] leave [this.settings[j]] alone. *)
Lemma forEach_frame ov keys : forall s j,
  wf s -> ~ In j keys ->
  setting (fst (forEach keys (merge_key ov) s)) j = setting s j
  /\ wf (fst (forEach keys (merge_key ov) s)).
Proof.
  induction keys as [|k keys IH]; intros s j Hwf Hin; simpl; [done|].
  unfold mbind, M_bind, bind.
  pose proof (merge_key_effect ov k s) as Heff.
  assert (k <> j) as Hne by (intros ->; apply Hin; by left).
  assert (~ In j keys) as Hin' by (intros H; apply Hin; by right).
  destruct (merge_key ov k s) as [s1 [[]|e|c]] eqn:Hstep; simpl in *.
  - destruct (IH s1 j) as [H1 H2];
      [by eapply key_effect_wf|done|].
    split; [|done]. rewrite H1. by eapply key_effect_frame.
  - split; [by eapply key_effect_frame|by eapply key_effect_wf].
  - split; [by eapply key_effect_frame|by eapply key_effect_wf].
Qed.

End StateFacts.

(** ** The [extend] loop, key by key *)

Module ExtendFacts.

Import Extend ObjFacts.

Lemma extend_props_cons name copy rest tps :
  extend_props assigned ((name, copy) :: rest) tps =
  extend_props assigned rest
    (match assigned (src_of tps name) copy with
     | Some v => obj_set tps name v
     | None => tps
     end).
Proof. reflexivity. Qed.

(** The property [j] of the extended target: untouched when the source has no
    such key or brings [undefined], otherwise what the loop body assigns. *)
Lemma extend_props_lookup ops : forall tps j,
  NoDup (map fst ops) ->
  obj_get (extend_props assigned ops tps) j =
  match obj_get ops j with
  | None => obj_get tps j
  | Some c =>
      match assigned (src_of tps j) c with
      | Some v => Some v
      | None => obj_get tps j
      end
  end.
Proof.
  induction ops as [|[name copy] rest IH]; intros tps j Hnd; [done|].
  rewrite extend_props_cons. simpl in Hnd. apply NoDup_cons in Hnd as [Hfresh Hnd].
  rewrite IH by done. simpl.
  destruct (String.eqb_spec name j) as [->|Hne].
  - rewrite obj_get_None by (by rewrite <- list_elem_of_In).
    destruct (assigned (src_of tps j) copy) as [v|]; [|done].
    apply obj_get_set_eq.
  - assert (forall v, obj_get (obj_set tps name v) j = obj_get tps j) as Hset
      by (intros v; by apply obj_get_set_ne).
    assert (forall v, src_of (obj_set tps name v) j = src_of tps j) as Hsrc
      by (intros v; unfold src_of; by rewrite Hset).
    destruct (assigned (src_of tps name) copy) as [v|]; [|done].
    rewrite Hset, Hsrc. done.
Qed.

Lemma arr_get_set a i v m :
  arr_get (arr_set a i v) m = if Nat.eqb i m then v else arr_get a m.
Proof.
  unfold arr_get, arr_set.
  destruct (Nat.ltb_spec i (length a)) as [Hlt|Hge].
  - destruct (Nat.eqb_spec i m) as [->|Hne].
    + apply nth_lookup_Some with (d := VUndef).
      by apply list_lookup_insert_eq.
    + destruct (a !! m) as [w|] eqn:Hm.
      * rewrite (nth_lookup_Some _ _ VUndef w);
          [symmetry; by apply nth_lookup_Some|].
        by rewrite list_lookup_insert_ne.
      * rewrite !nth_overflow; [done| |].
        -- by apply lookup_ge_None.
        -- rewrite length_insert. by apply lookup_ge_None.
  - destruct (Nat.eqb_spec i m) as [->|Hne].
    + rewrite app_assoc. rewrite app_nth2; rewrite length_app, length_replicate.
      * replace (m - (length a + (m - length a))) with 0 by lia. done.
      * lia.
    + destruct (Nat.lt_ge_cases m (length a)) as [Hm|Hm].
      * by rewrite app_nth1.
      * rewrite app_nth2 by done. rewrite (nth_overflow a) by done.
        destruct (Nat.lt_ge_cases (m - length a) (i - length a)) as [Hr|Hr].
        -- rewrite app_nth1 by (by rewrite length_replicate).
           apply nth_lookup_Some with (d := VUndef).
           by apply lookup_replicate_2.
        -- rewrite app_nth2 by (by rewrite length_replicate).
           rewrite length_replicate.
           destruct (m - length a - (i - length a)) as [|[|n]] eqn:Hd;
             [lia|done|done].
Qed.

Lemma extend_elems_cons i copy rest tes :
  extend_elems assigned i (copy :: rest) tes =
  extend_elems assigned (S i) rest
    (match assigned (arr_get tes i) copy with
     | Some v => arr_set tes i v
     | None => tes
     end).
Proof. reflexivity. Qed.

(** Outside the window of indices the source covers, the extended array is
    the target. *)
Lemma extend_elems_outside oes : forall i tes m,
  m < i \/ i + length oes <= m ->
  arr_get (extend_elems assigned i oes tes) m = arr_get tes m.
Proof.
  induction oes as [|copy rest IH]; intros i tes m Hm; [done|].
  rewrite extend_elems_cons. simpl in Hm.
  rewrite IH by lia.
  destruct (assigned (arr_get tes i) copy) as [v|]; [|done].
  rewrite arr_get_set. destruct (Nat.eqb_spec i m); [lia|done].
Qed.

(** Inside it, element [m] is what the loop body assigns for source element
    [m - i], and the target's own element when that is [undefined]. *)
Lemma extend_elems_inside oes : forall i tes m,
  i <= m < i + length oes ->
  arr_get (extend_elems assigned i oes tes) m =
  match assigned (arr_get tes m) (nth (m - i) oes VUndef) with
  | Some v => v
  | None => arr_get tes m
  end.
Proof.
  induction oes as [|copy rest IH]; intros i tes m Hm; [simpl in Hm; lia|].
  rewrite extend_elems_cons. simpl in Hm.
  destruct (Nat.eq_dec i m) as [->|Hne].
  - rewrite extend_elems_outside by lia.
    rewrite Nat.sub_diag. simpl.
    destruct (assigned (arr_get tes m) copy) as [v|]; [|done].
    rewrite arr_get_set. by rewrite Nat.eqb_refl.
  - rewrite IH by lia.
    replace (m - i) with (S (m - S i)) by lia. simpl.
    assert (arr_get
              match assigned (arr_get tes i) copy with
              | Some v => arr_set tes i v
              | None => tes
              end m = arr_get tes m) as ->; [|done].
    destruct (assigned (arr_get tes i) copy) as [v|]; [|done].
    rewrite arr_get_set. by destruct (Nat.eqb_spec i m).
Qed.

End ExtendFacts.

(** ** [mergeSettings], round by round *)

Module MergeFacts.

Import Cli Inv ObjFacts StateFacts Extend.

Lemma jstype_eqb_eq a b : jstype_eqb a b = true <-> a = b.
Proof. destruct a, b; simpl; split; congruence. Qed.

Lemma jstype_eqb_neq a b : jstype_eqb a b = false <-> a <> b.
Proof. destruct a, b; simpl; split; congruence. Qed.

Lemma forEach_cons {A} (x : A) rest f s :
  forEach (x :: rest) f s =
  match f x s with
  | (s', Normal _) => forEach rest f s'
  | (s', Throw e) => (s', Throw e)
  | (s', Exit c) => (s', Exit c)
  end.
Proof. reflexivity. Qed.

Lemma forEach_app {A} (l1 l2 : list A) f : forall s,
  forEach (l1 ++ l2) f s =
  match forEach l1 f s with
  | (s', Normal _) => forEach l2 f s'
  | (s', Throw e) => (s', Throw e)
  | (s', Exit c) => (s', Exit c)
  end.
Proof.
  induction l1 as [|x l1 IH]; intros s; [done|].
  rewrite <- app_comm_cons, !forEach_cons.
  destruct (f x s) as [s1 [[]|e|c]]; [apply IH|done|done].
Qed.

Lemma mergeSettings_keys ov k s :
  In k (own_keys ov) ->
  mergeSettings ov s = forEach (own_keys ov) (merge_key ov) s.
Proof. destruct ov; simpl; try done. Qed.

Lemma own_get_In ov k v : own_get ov k = v -> v <> VUndef -> In k (own_keys ov).
Proof.
  unfold own_get, own_keys. intros H Hv.
  destruct (obj_get (entries ov) k) as [w|] eqn:Hk; [|congruence].
  by eapply obj_get_In.
Qed.

Lemma setting_own s k v :
  setting s k = v -> typeof v = TObject ->
  exists l, obj_get (settings s) k = Some l.
Proof.
  unfold setting. destruct (obj_get (settings s) k) as [l|]; [eauto|].
  intros <-. unfold inherited. by destruct (mem_string k object_prototype).
Qed.

Lemma merge_key_arrays ov k s d o :
  setting s k = VArr d -> own_get ov k = VArr o ->
  merge_key ov k s = (bound s k (VArr (d ++ o)), Normal tt).
Proof.
  intros Hd Ho. unfold merge_key, mbind, M_bind, bind, get.
  rewrite Hd, Ho. reflexivity.
Qed.

Lemma merge_key_objects ov k s c dps oc ops :
  setting s k = VObj c dps -> own_get ov k = VObj oc ops ->
  exists l, obj_get (settings s) k = Some l
    /\ merge_key ov k s =
       (written s l
          (VObj c (extend_props assigned (enumerable oc ops) dps)),
        Normal tt).
Proof.
  intros Hd Ho. destruct (setting_own s k _ Hd) as [l Hl]; [done|].
  exists l. split; [done|].
  unfold merge_key, mbind, M_bind, bind, get.
  rewrite Hd, Ho. simpl. rewrite Hl. reflexivity.
Qed.

Lemma merge_key_mismatch ov k s :
  structure_mismatch (setting s k) (own_get ov k) = true ->
  merge_key ov k s = (s, Throw (mk_error "Error" (mismatch_message k))).
Proof.
  unfold structure_mismatch, merge_key, mbind, M_bind, bind, get.
  destruct (setting s k), (own_get ov k); simpl; try done.
Qed.

Lemma merge_key_normal ov k s :
  structure_mismatch (setting s k) (own_get ov k) = false ->
  snd (merge_key ov k s) = Normal tt.
Proof.
  unfold structure_mismatch, merge_key, mbind, M_bind, bind, get.
  destruct (setting s k) eqn:Hd, (own_get ov k); simpl; try done.
  all: by destruct (obj_get (settings s) k).
Qed.

Lemma merge_key_thrown ov k s e :
  snd (merge_key ov k s) = Throw e ->
  structure_mismatch (setting s k) (own_get ov k) = true.
Proof.
  destruct (structure_mismatch (setting s k) (own_get ov k)) eqn:H; [done|].
  by rewrite merge_key_normal.
Qed.

Lemma merge_key_skip ov k s :
  typeof (setting s k) <> typeof (own_get ov k) ->
  typeof (setting s k) <> TUndefined ->
  merge_key ov k s = (s, Normal tt).
Proof.
  intros H1 H2. unfold merge_key, mbind, M_bind, bind, get.
  apply jstype_eqb_neq in H1, H2. by rewrite H1, H2.
Qed.

Lemma merge_key_never_exits ov k s c : snd (merge_key ov k s) <> Exit c.
Proof.
  destruct (structure_mismatch (setting s k) (own_get ov k)) eqn:H.
  - by rewrite merge_key_mismatch.
  - by rewrite merge_key_normal.
Qed.

(** The rounds before a key leave its default in place. *)
Lemma rounds_before ov pre s k :
  wf s -> ~ In k pre ->
  setting (fst (forEach pre (merge_key ov) s)) k = setting s k
  /\ wf (fst (forEach pre (merge_key ov) s)).
Proof. apply forEach_frame. Qed.

(** When the loop completes, the value at a visited key is the one its own
    round left there. *)
Lemma round_of ov keys : forall s k s',
  wf s -> NoDup keys -> In k keys ->
  forEach keys (merge_key ov) s = (s', Normal tt) ->
  exists s1, wf s1 /\ setting s1 k = setting s k
    /\ snd (merge_key ov k s1) = Normal tt
    /\ setting s' k = setting (fst (merge_key ov k s1)) k.
Proof.
  induction keys as [|j keys IH]; intros s k s' Hwf Hnd Hin Hrun; [done|].
  apply NoDup_cons in Hnd as [Hfresh Hnd].
  rewrite forEach_cons in Hrun.
  pose proof (merge_key_effect ov j s) as Heff.
  destruct (merge_key ov j s) as [s2 [[]|e|c]] eqn:Hstep; [|done|done].
  simpl in Heff.
  destruct (String.eqb_spec j k) as [->|Hne].
  - exists s. rewrite Hstep. simpl. do 3 (split; [done|]).
    assert (~ In k keys) as Hk by (by rewrite <- list_elem_of_In).
    destruct (forEach_frame ov keys s2 k) as [H1 _];
      [by eapply key_effect_wf|done|].
    by rewrite Hrun in H1.
  - destruct Hin as [->|Hin]; [done|].
    destruct (IH s2 k s') as (s1 & Hwf1 & Hs1 & Hn & Hk); try done.
    + by eapply key_effect_wf.
    + exists s1. split; [done|]. split; [|done].
      rewrite Hs1. by eapply key_effect_frame.
Qed.

End MergeFacts.

(** ** The sample states are well formed *)

Module SampleFacts.

Import Cli Inv Sample ObjFacts.

Lemma bind_from_get doc : forall i j l,
  obj_get (bind_from i doc) j = Some l ->
  i <= l < i + length doc /\ map fst doc !! (l - i) = Some j.
Proof.
  induction doc as [|[k v] doc IH]; intros i j l; simpl; [done|].
  destruct (String.eqb_spec k j) as [->|Hne].
  - intros [= <-]. rewrite Nat.sub_diag. split; [lia|done].
  - intros H. apply IH in H as [H1 H2]. split; [lia|].
    by replace (l - i) with (S (l - S i)) by lia.
Qed.

Lemma wf_fresh doc : wf (fresh doc).
Proof.
  split; simpl.
  - intros j k l Hj Hk.
    apply bind_from_get in Hj as [_ Hj], Hk as [_ Hk]. congruence.
  - intros k l Hk. apply bind_from_get in Hk as [Hk _].
    rewrite length_map. lia.
Qed.

End SampleFacts.

(** ** Claims about [mergeSettings] *)

Module Merge.

Import Cli Inv Stated Sample Extend.
Import ObjFacts StateFacts ExtendFacts MergeFacts SampleFacts.

(** C6. When the default and the override at a key are both arrays, a merge
    that completes leaves at that key the default array followed by the
    override array: every element of both, in order, duplicates included. *)
Theorem arrays_are_concatenated s overrides k d o s' :
  wf s -> NoDup (own_keys overrides) ->
  setting s k = VArr d -> own_get overrides k = VArr o ->
  mergeSettings overrides s = (s', Normal tt) ->
  setting s' k = VArr (d ++ o).
Proof.
  intros Hwf Hnd Hd Ho Hrun.
  assert (In k (own_keys overrides)) as Hin by (by eapply own_get_In).
  rewrite (mergeSettings_keys _ k) in Hrun by done.
  destruct (round_of _ _ _ _ _ Hwf Hnd Hin Hrun) as (s1 & _ & Hs1 & _ & Hk).
  rewrite Hk, (merge_key_arrays _ _ _ d o) by congruence.
  apply setting_bound_eq.
Qed.

Lemma arrays_are_concatenated_witness :
  setting (fst (mergeSettings more_options (fresh document)))
    "optionDefinitions"
  = VArr [ obj [("name", VStr "help"); ("alias", VStr "h");
                ("type", VFun "Boolean")];
           obj [("name", VStr "verbose"); ("alias", VStr "v");
                ("type", VFun "Boolean")];
           obj [("name", VStr "help"); ("alias", VStr "h");
                ("type", VFun "Boolean")];
           obj [("name", VStr "file"); ("type", VFun "String")] ].
Proof.
  apply (arrays_are_concatenated (fresh document) more_options
           "optionDefinitions"
           [ obj [("name", VStr "help"); ("alias", VStr "h");
                  ("type", VFun "Boolean")];
             obj [("name", VStr "verbose"); ("alias", VStr "v");
                  ("type", VFun "Boolean")] ]
           [ obj [("name", VStr "help"); ("alias", VStr "h");
                  ("type", VFun "Boolean")];
             obj [("name", VStr "file"); ("type", VFun "String")] ]).
  - apply wf_fresh.
  - vm_compute. repeat constructor. intros H. by apply elem_of_nil in H.
  - reflexivity.
  - reflexivity.
  - reflexivity.
Defined.




(** C9, as the code has it.  An argument whose type is not ['object'] (a
    string, a number, a boolean, a function) makes [mergeSettings] throw the
    invalid-settings error before any key is visited; the state is
    untouched.  ([undefined] selects the default parameter [{}].) *)
Theorem non_object_argument_rejected s overrides :
  typeof overrides <> TObject -> overrides <> VUndef ->
  mergeSettings overrides s = (s, Throw (mk_error "Error" invalid_message)).
Proof. intros Ht Hu. destruct overrides; simpl in *; done. Qed.

Lemma non_object_argument_rejected_witness :
  mergeSettings (VStr "not an object") (fresh document)
  = (fresh document, Throw (mk_error "Error" invalid_message)).
Proof.
  apply (non_object_argument_rejected (fresh document) (VStr "not an object"));
    simpl; discriminate.
Defined.

(** C9 as stated fails: an array is not a mapping, yet it is merged key by
    key (its keys are its indices) and the settings change. *)
Lemma array_argument_is_merged :
  is_mapping (VArr [VStr "x"]) = false
  /\ ~ rejects_argument (fresh document) (VArr [VStr "x"])
  /\ snd (mergeSettings (VArr [VStr "x"]) (fresh document)) = Normal tt
  /\ setting (fst (mergeSettings (VArr [VStr "x"]) (fresh document))) "0"
     = VStr "x".
Proof.
  split; [reflexivity|]. split; [|split; reflexivity].
  unfold rejects_argument. vm_compute. discriminate.
Qed.

(** [null] passes the [typeof] guard as well; it is [Object.keys] that
    throws, a [TypeError], and the state is untouched. *)
Example null_argument_fails_in_object_keys s :
  mergeSettings VNull s
  = (s, Throw (mk_error "TypeError"
                 "Cannot convert undefined or null to object")).
Proof. reflexivity. Qed.

(** What the loop does with a key whose override has another type than the
    value the settings hold for it (an existing value, not [undefined]): no
    branch is taken.  The array test inside the [object] case ends in a
    [throw] for values that cannot be merged ("Type did not match!"); the
    [typeof] test has no such [else], so the merge runs exactly as it does
    over the other keys alone, raises nothing for that key, and drops the
    caller's value. *)
Theorem type_mismatch_is_skipped s overrides pre k post :
  wf s -> own_keys overrides = pre ++ k :: post ->
  NoDup (own_keys overrides) ->
  typeof (setting s k) <> typeof (own_get overrides k) ->
  typeof (setting s k) <> TUndefined ->
  mergeSettings overrides s = forEach (pre ++ post) (merge_key overrides) s
  /\ setting (fst (mergeSettings overrides s)) k = setting s k.
Proof.
  intros Hwf Hkeys Hnd Hty Hdef.
  assert (In k (own_keys overrides)) as Hin
    by (rewrite Hkeys; apply in_elt).
  assert (~ In k (pre ++ post)) as Hk.
  { rewrite Hkeys in Hnd. apply NoDup_app in Hnd as (_ & Hdisj & Hrest).
    apply NoDup_cons in Hrest as [Hpost _].
    intros H. apply in_app_or in H as [H|H].
    - apply list_elem_of_In in H. apply (Hdisj k H). by left.
    - by apply Hpost, list_elem_of_In. }
  assert (mergeSettings overrides s
          = forEach (pre ++ post) (merge_key overrides) s) as Heq.
  { rewrite (mergeSettings_keys _ k), Hkeys, !forEach_app by done.
    assert (~ In k pre) as Hpre by (intros H; apply Hk, in_or_app; by left).
    destruct (rounds_before overrides pre s k Hwf Hpre) as [Hs1 _].
    destruct (forEach pre (merge_key overrides) s) as [s1 [[]|e|c]];
      [|done|done].
    simpl in Hs1. rewrite forEach_cons, merge_key_skip; [done| |];
      by rewrite Hs1. }
  split; [done|]. rewrite Heq. by apply forEach_frame.
Qed.

Lemma type_mismatch_is_skipped_witness :
  mergeSettings mistyped_name (fresh document)
  = forEach ([] ++ ["description"]) (merge_key mistyped_name) (fresh document)
  /\ setting (fst (mergeSettings mistyped_name (fresh document))) "name"
     = setting (fresh document) "name".
Proof.
  apply (type_mismatch_is_skipped (fresh document) mistyped_name
           [] "name" ["description"]).
  - apply wf_fresh.
  - reflexivity.
  - vm_compute. repeat constructor; intros H;
      repeat (apply elem_of_cons in H as [H|H]; [discriminate|]);
      by apply elem_of_nil in H.
  - simpl. discriminate.
  - simpl. discriminate.
Defined.

(** C1 fails on the code.  The override of [name] is a number where the
    default is a string: no error is raised, the merge completes, the later
    key [description] gets its new value, and [name] silently keeps the
    default. *)
Lemma type_mismatch_does_not_abort :
  typeof (setting (fresh document) "name")
    <> typeof (own_get mistyped_name "name")
  /\ ~ type_mismatch_aborts (fresh document) mistyped_name "name"
  /\ snd (mergeSettings mistyped_name (fresh document)) = Normal tt
  /\ setting (fst (mergeSettings mistyped_name (fresh document)))
       "description" = VStr "renamed"
  /\ setting (fst (mergeSettings mistyped_name (fresh document))) "name"
     = VStr "cli".
Proof.
  split; [simpl; discriminate|]. split; [|repeat split; reflexivity].
  intros [[e He] _]. vm_compute in He. discriminate.
Qed.

End Merge.

(** ** The deep merge of two mappings *)

Module DeepMerge.

Import Cli Inv Stated Sample Extend.
Import ObjFacts StateFacts ExtendFacts MergeFacts SampleFacts.

(** C7, as the code has it.  When the default and the override at a key are
    both plain mappings, a merge that completes leaves there the default
    extended by the override: a key the override lacks keeps the default's
    value, and so does a key the override holds as [undefined]; a primitive,
    [null], a function or an error instance in the override replaces the
    default's value; a mapping in the override is merged by this same rule
    into the default's mapping at that key (into an empty one when the default
    has none); an array in the override is merged index by index into the
    default's array at that key (into an empty one when the default has
    none), elements past the override's length staying as they are. *)
Theorem mappings_are_extended s overrides k dps ops s' :
  wf s -> NoDup (own_keys overrides) -> NoDup (map fst ops) ->
  setting s k = VObj Plain dps -> own_get overrides k = VObj Plain ops ->
  mergeSettings overrides s = (s', Normal tt) ->
  let rps := extend_props assigned ops dps in
  setting s' k = VObj Plain rps
  /\ (forall j, obj_get ops j = None -> obj_get rps j = obj_get dps j)
  /\ (forall j, obj_get ops j = Some VUndef -> obj_get rps j = obj_get dps j)
  /\ (forall j c, obj_get ops j = Some c -> assigned_as_is c = true ->
        obj_get rps j = Some c)
  /\ (forall j cps, obj_get ops j = Some (VObj Plain cps) ->
        obj_get rps j
        = Some (VObj Plain
                  (extend_props assigned cps (clone_object (src_of dps j)))))
  /\ (forall j ces, obj_get ops j = Some (VArr ces) ->
        exists res,
          obj_get rps j = Some (VArr res)
          /\ forall m,
               arr_get res m =
               if (m <? length ces)%nat
               then match assigned (arr_get (clone_array (src_of dps j)) m)
                            (nth m ces VUndef) with
                    | Some v => v
                    | None => arr_get (clone_array (src_of dps j)) m
                    end
               else arr_get (clone_array (src_of dps j)) m).
Proof.
  intros Hwf Hnd Hops Hd Ho Hrun rps.
  assert (In k (own_keys overrides)) as Hin by (by eapply own_get_In).
  rewrite (mergeSettings_keys _ k) in Hrun by done.
  destruct (round_of _ _ _ _ _ Hwf Hnd Hin Hrun)
    as (s1 & Hwf1 & Hs1 & _ & Hk).
  rewrite Hd in Hs1.
  destruct (merge_key_objects _ _ _ _ _ _ _ Hs1 Ho) as (l & Hl & Hstep).
  rewrite Hstep in Hk. simpl in Hk.
  rewrite setting_written_eq in Hk by done.
  split; [done|].
  pose proof (fun j => extend_props_lookup ops dps j Hops) as Hget.
  fold rps in Hget.
  split; [|split; [|split; [|split]]].
  - intros j Hj. by rewrite Hget, Hj.
  - intros j Hj. by rewrite Hget, Hj.
  - intros j c Hj Hc. rewrite Hget, Hj. by destruct c as [| | | | | | |[]].
  - intros j cps Hj. by rewrite Hget, Hj.
  - intros j ces Hj. rewrite Hget, Hj. simpl. eexists. split; [done|].
    intros m. destruct (Nat.ltb_spec m (length ces)) as [Hm|Hm].
    + rewrite extend_elems_inside by lia. by rewrite Nat.sub_0_r.
    + apply extend_elems_outside. lia.
Qed.

Lemma mappings_are_extended_witness :
  setting (fst (mergeSettings paths_override (fresh paths_document))) "paths"
  = obj [("root", VStr "/srv");
         ("include", VArr [VStr "c"; VStr "b"]);
         ("cache", obj [("dir", VStr "tmp"); ("ttl", VNum 5)]);
         ("depth", VNum 2)].
Proof.
  refine (proj1 (mappings_are_extended (fresh paths_document) paths_override
                   "paths"
                   [("root", VStr "/srv");
                    ("include", VArr [VStr "a"; VStr "b"]);
                    ("cache", obj [("dir", VStr "tmp"); ("ttl", VNum 60)])]
                   [("include", VArr [VStr "c"]);
                    ("cache", obj [("ttl", VNum 5)]);
                    ("depth", VNum 2);
                    ("root", VUndef)]
                   (fst (mergeSettings paths_override (fresh paths_document)))
                   _ _ _ _ _ _)).
  - apply wf_fresh.
  - vm_compute. repeat constructor. intros H. by apply elem_of_nil in H.
  - vm_compute. repeat constructor; intros H;
      repeat (apply elem_of_cons in H as [H|H]; [discriminate|]);
      by apply elem_of_nil in H.
  - reflexivity.
  - reflexivity.
  - reflexivity.
Defined.

(** C7 as stated fails where both mappings hold an array under the same key:
    the result is neither the override's array (the override winning at the
    leaf) nor the two arrays one after the other, but the default's array with
    its first element overwritten. *)
Lemma nested_arrays_merge_by_index :
  setting (fst (mergeSettings paths_override (fresh paths_document))) "paths"
  = obj [("root", VStr "/srv");
         ("include", VArr [VStr "c"; VStr "b"]);
         ("cache", obj [("dir", VStr "tmp"); ("ttl", VNum 5)]);
         ("depth", VNum 2)]
  /\ ~ deep_combined
         [("root", VStr "/srv");
          ("include", VArr [VStr "a"; VStr "b"]);
          ("cache", obj [("dir", VStr "tmp"); ("ttl", VNum 60)])]
         [("include", VArr [VStr "c"]);
          ("cache", obj [("ttl", VNum 5)]);
          ("depth", VNum 2);
          ("root", VUndef)]
         [("root", VStr "/srv");
          ("include", VArr [VStr "c"; VStr "b"]);
          ("cache", obj [("dir", VStr "tmp"); ("ttl", VNum 5)]);
          ("depth", VNum 2)].
Proof.
  split; [reflexivity|].
  intros H. inversion H as [d o r Hall]; subst.
  specialize (Hall "include"). simpl in Hall. inversion Hall.
Qed.

End DeepMerge.

(** ** The generated log methods *)

Module LogFacts.

Import Cli Inv Sample.

Section WithCollaborators.
Variable E : collab.

(** A style returns the painted string and leaves the state alone. *)
Lemma apply_color_style g f x s :
  (forall x, g x = style f x) -> apply_color g x s = (s, Normal (VStr (f x))).
Proof. intros Hg. unfold apply_color. by rewrite Hg. Qed.

Lemma recolor_style g f v s :
  (forall x, g x = style f x) -> recolor g v s = (s, Normal (paint f v)).
Proof. intros Hg. destruct v; try done. by apply apply_color_style. Qed.

Lemma recolor_elems_style g f a s :
  (forall x, g x = style f x) ->
  recolor_elems g a s = (s, Normal (map (paint f) a)).
Proof.
  intros Hg. induction a as [|v a IH]; [done|].
  simpl. unfold mbind, M_bind, bind.
  by rewrite (recolor_style g f v s Hg), IH.
Qed.

Lemma recolor_props_style g f keys ps s :
  (forall x, g x = style f x) ->
  recolor_props g keys ps s
  = (s, Normal (map (fun p => (fst p,
                               if mem_string (fst p) keys
                               then paint f (snd p) else snd p)) ps)).
Proof.
  intros Hg. induction ps as [|[k v] ps IH]; [done|].
  simpl. unfold mbind, M_bind, bind.
  destruct (mem_string k keys);
    [rewrite (recolor_style g f v s Hg)|unfold ret at 1]; by rewrite IH.
Qed.

(** [colorize] on an array, for the colors [colors_with] covers. *)
Lemma colorize_array_with c h args s :
  colors_with E c h ->
  colorize E (VArr args) (VStr c) s = (s, Normal (VArr (map (tint h) args))).
Proof.
  unfold colors_with, colorize, mbind, M_bind, bind.
  destruct h as [f|]; simpl.
  - intros (-> & g & -> & Hg). by rewrite (recolor_elems_style g f args s Hg).
  - rewrite map_id. intros [->| ->]; [done|]. by destruct (blank c).
Qed.

Lemma colorize_list_with c h args s :
  colors_with E c h ->
  colorize_list E args (VStr c) s = (s, Normal (map (tint h) args)).
Proof.
  intros Hw. unfold colorize_list, mbind, M_bind, bind.
  by rewrite (colorize_array_with c h).
Qed.

(** The color [log_method] hands to [colorize]. *)
Lemma colorize_list_chosen methodConfig h args s :
  paints E methodConfig h ->
  colorize_list E args
    (match color_fn E (to_string (get_prop methodConfig "color")) with
     | Some _ => get_prop methodConfig "color"
     | None => VStr EmptyString
     end) s
  = (s, Normal (map (tint h) args)).
Proof.
  unfold paints.
  destruct (get_prop methodConfig "color") as [| | | |c| | |] eqn:Hc; try done.
  - intros [Hn ->]. change (to_string VUndef) with "undefined". rewrite Hn.
    simpl. by rewrite map_id.
  - intros Hw. change (to_string (VStr c)) with c.
    destruct (color_fn E c) as [g|] eqn:Hg; [by apply colorize_list_with|].
    destruct h as [f|]; simpl in *.
    + destruct Hw as (_ & g & Hg' & _). congruence.
    + unfold colorize_list, colorize, mbind, M_bind, bind. simpl.
      by rewrite map_id.
Qed.

(** A call of a generated method whose configuration has members: nothing
    when the gate is closed; otherwise one console call with the stamp, the
    prefix and the colorized arguments, and then the escalation test. *)
Lemma log_method_run_members method cfg h args s :
  member cfg "verbose" = ret (get_prop cfg "verbose") ->
  paints E cfg h ->
  log_method E method cfg args s =
  if visible (get_prop cfg "verbose") s
  then
    (with_out s (out s ++ [Console (channel E method) (emitted h cfg s args)]),
     if escalates cfg s
     then Throw (mk_error "Error" (to_string (VArr (map (tint h) args))))
     else Normal tt)
  else (s, Normal tt).
Proof.
  intros Hm Hc. unfold log_method. rewrite Hm.
  unfold emitted, stamp_part, prefix_part, channel.
  unfold mbind at 1 2. unfold M_bind, bind at 1 2. unfold ret at 1, get at 1.
  destruct (visible (get_prop cfg "verbose") s); [|done].
  destruct (get_prop cfg "prefix") as [| | | |p| | |];
    try destruct (blank p);
    destruct (truthy (get_prop cfg "stamp"));
    unfold mbind, M_bind, bind, emit, modify, get, ret;
    change (blank EmptyString) with true; cbn [negb];
    repeat (cbv beta iota; rewrite ?(colorize_list_chosen cfg h) by done);
    change (escalates cfg (with_out s ?x)) with (escalates cfg s);
    by destruct (escalates cfg s).
Qed.

Lemma log_method_run method cls ps h args s :
  paints E (VObj cls ps) h ->
  log_method E method (VObj cls ps) args s =
  if visible (get_prop (VObj cls ps) "verbose") s
  then
    (with_out s
       (out s ++ [Console (channel E method) (emitted h (VObj cls ps) s args)]),
     if escalates (VObj cls ps) s
     then Throw (mk_error "Error"
                   (to_string (VArr (map (tint h) args))))
     else Normal tt)
  else (s, Normal tt).
Proof. by apply log_method_run_members. Qed.

End WithCollaborators.

(** The sample palette: [yellow], [red] and [cyan] are styles. *)
Lemma palette_style E c code :
  color_fn E = palette -> palette c = Some (style (ansi code)) ->
  names_style E c (ansi code).
Proof. intros HE Hc. exists (style (ansi code)). by rewrite HE. Qed.

End LogFacts.

(** ** Claims about the generated log methods *)

Module Logging.

Import Cli Inv Stated Sample.
Import ObjFacts LogFacts.




(** The restriction on the color is needed as well: [colors.stylize] is a
    function, so the name passes the test of the method, and the call fails
    inside [colorize] before anything is printed; [colors.enable] returns
    [undefined], which is printed in place of the argument. *)
Example other_members_of_colors :
  log_method whole_colors "warn" (obj [("color", VStr "stylize")])
    [VStr "disk low"] (session [] [])
  = (session [] [],
     Throw (mk_error "TypeError"
              "Cannot read properties of undefined (reading 'open')"))
  /\ out (fst (log_method whole_colors "warn" (obj [("color", VStr "enable")])
                 [VStr "disk low"] (session [] [])))
     = [Console "warn" [VUndef]].
Proof. split; reflexivity. Qed.




End Logging.

(** ** Claims about [enableLogging] and the constructor *)

Module Construction.

Import Cli Inv Sample.
Import ObjFacts MergeFacts.

Lemma has_member_logs s s' j :
  obj_get (logs s') j = obj_get (logs s) j -> has_member s' j = has_member s j.
Proof. unfold has_member. by intros ->. Qed.

Lemma attach_method_free logging method s :
  has_member s method = false ->
  attach_method logging method s
  = (with_logs s (obj_set (logs s) method (own_get logging method)), Normal tt).
Proof.
  intros H. unfold attach_method, mbind, M_bind, bind, get. by rewrite H.
Qed.

Lemma attach_method_taken logging method s :
  has_member s method = true ->
  attach_method logging method s
  = (s, Throw (mk_error "Error" (collision_message method))).
Proof.
  intros H. unfold attach_method, mbind, M_bind, bind, get. by rewrite H.
Qed.

(** Generation over names that are all free: each gets its method, no other
    name is touched. *)
Lemma attach_all logging pre : forall s,
  NoDup pre -> (forall j, In j pre -> has_member s j = false) ->
  exists s1,
    forEach pre (attach_method logging) s = (s1, Normal tt)
    /\ (forall j, In j pre -> obj_get (logs s1) j = Some (own_get logging j))
    /\ (forall j, ~ In j pre -> obj_get (logs s1) j = obj_get (logs s) j).
Proof.
  induction pre as [|m pre IH]; intros s Hnd Hfree.
  - exists s. by repeat split.
  - apply NoDup_cons in Hnd as [Hm Hnd].
    rewrite forEach_cons, attach_method_free by (apply Hfree; by left).
    set (s0 := with_logs s (obj_set (logs s) m (own_get logging m))).
    assert (forall j, m <> j -> obj_get (logs s0) j = obj_get (logs s) j)
      as Hother by (intros j Hj; by apply obj_get_set_ne).
    destruct (IH s0) as (s1 & Hrun & Hdef & Hrest); [done| |].
    { intros j Hj. rewrite (has_member_logs s s0).
      - apply Hfree. by right.
      - apply Hother. intros ->. by apply Hm, list_elem_of_In. }
    exists s1. split; [done|]. split.
    + intros j [<-|Hj]; [|by apply Hdef].
      rewrite Hrest by (by rewrite <- list_elem_of_In).
      apply obj_get_set_eq.
    + intros j Hj. rewrite Hrest by (intros H; apply Hj; by right).
      apply Hother. intros ->. apply Hj. by left.
Qed.

(** C10. When the logging configuration names a method that the instance
    already has, and every name before it is free, [enableLogging] throws the
    collision error that names this method.  The methods for the names before
    it have been attached; no name after it gets one. *)
Theorem collision_aborts_generation s pre m post :
  own_keys (setting s "logging") = pre ++ m :: post ->
  NoDup (own_keys (setting s "logging")) ->
  (forall j, In j pre -> has_member s j = false) ->
  has_member s m = true ->
  exists s',
    enableLogging s = (s', Throw (mk_error "Error" (collision_message m)))
    /\ (forall j, In j pre ->
          obj_get (logs s') j = Some (own_get (setting s "logging") j))
    /\ (forall j, In j post -> obj_get (logs s') j = obj_get (logs s) j).
Proof.
  intros Hkeys Hnd Hfree Htaken.
  set (logging := setting s "logging") in *.
  assert (enableLogging s = forEach (own_keys logging) (attach_method logging) s)
    as ->.
  { unfold enableLogging, mbind, M_bind, bind, get. fold logging.
    destruct logging; simpl in *; try done; by destruct pre. }
  rewrite Hkeys, forEach_app. rewrite Hkeys in Hnd.
  apply NoDup_app in Hnd as (Hpre & Hdisj & Hrest).
  apply NoDup_cons in Hrest as [Hpost _].
  assert (~ In m pre) as Hm.
  { intros H. apply list_elem_of_In in H. apply (Hdisj m H). by left. }
  destruct (attach_all logging pre s Hpre Hfree) as (s1 & Hrun & Hdef & Hoth).
  rewrite Hrun, forEach_cons, attach_method_taken.
  - exists s1. split; [done|]. split; [done|].
    intros j Hj. apply Hoth. intros H.
    apply list_elem_of_In in H. apply (Hdisj j H). right.
    by apply list_elem_of_In.
  - rewrite (has_member_logs s s1); [done|]. by apply Hoth.
Qed.

Lemma collision_aborts_generation_witness :
  exists s',
    enableLogging
      (with_settings (boot [("logging", colliding_methods)] "now")
         [("logging", 0)])
    = (s', Throw (mk_error "Error" (collision_message "options")))
    /\ obj_get (logs s') "notice" = Some (obj [("verbose", VBool false)])
    /\ obj_get (logs s') "trace" = None.
Proof.
  destruct (collision_aborts_generation
              (with_settings (boot [("logging", colliding_methods)] "now")
                 [("logging", 0)])
              ["notice"] "options" ["trace"])
    as (s' & Hrun & Hpre & Hpost).
  - reflexivity.
  - vm_compute. repeat constructor; intros H;
      repeat (apply elem_of_cons in H as [H|H]; [discriminate|]);
      by apply elem_of_nil in H.
  - intros j [<-|[]]. reflexivity.
  - reflexivity.
  - exists s'. split; [exact Hrun|]. split.
    + apply (Hpre "notice"). by left.
    + apply (Hpost "trace"). by left.
Defined.

(** C2 fails on the code.  Whatever the collaborators and the state,
    [new Cli("not an object")] reports the message of the merge error through
    [console.error] and then calls [this.debug], which [enableLogging] never
    got to define: the constructor ends in an uncaught [TypeError], without
    the help screen and without [process.exit]. *)
Theorem failed_merge_ends_in_type_error E s :
  new_Cli E (VStr "not an object") s
  = (mkState (store s) (defaults s) (now s)
       (out s ++ [Console "error" [VStr invalid_message]])
       [("force", VBool true)] (defaults s) [],
     Throw (mk_error "TypeError" "this.debug is not a function")).
Proof. reflexivity. Qed.

(** The same happens for every argument on which the merge throws. *)
Lemma any_failed_merge_ends_in_type_error E arg s s1 msg :
  mergeSettings (match arg with VUndef => obj [] | _ => arg end)
    (entry_state s)
  = (s1, Throw (mk_error "Error" msg)) ->
  logs s1 = [] ->
  snd (new_Cli E arg s)
  = Throw (mk_error "TypeError" "this.debug is not a function").
Proof.
  intros Hrun Hlogs.
  unfold new_Cli, constructor, try_catch, mbind, M_bind, bind, modify.
  cbv beta iota.
  change (with_settings
            (with_options
               (with_logs (with_settings (with_options s []) []) []) [])
            (defaults
               (with_options
                  (with_logs (with_settings (with_options s []) []) []) [])))
    with (entry_state s).
  rewrite Hrun. destruct s1 as [st df nw ou op se lg].
  simpl in Hlogs. subst lg. reflexivity.
Qed.

(** When it is the argument parser that throws, everything the handler calls
    is in place and the claim's sequence is what happens: the message goes
    through [this.error], then the help screen, then exit code 0. *)
Example failed_parse_exits :
  new_Cli bad_argv (obj []) (boot document "now")
  = (mkState (store (boot document "now")) (defaults (boot document "now"))
       "now"
       [Console "error"
          [VStr (ansi "31" "ERROR");
           VStr (ansi "31" "Unknown option: --nope")];
        Console "log" [VStr "usage"]]
       [("force", VBool true)] (defaults (boot document "now"))
       [("log", obj [("verbose", VBool false)]);
        ("warn", warn_config); ("error", error_config);
        ("debug", debug_config)],
     Exit 0).
Proof. reflexivity. Qed.

(** C3 fails on the code.  The first construction is given a logging method
    [extra]; [extend] writes it into the object that the defaults and the
    instance share.  The defaults read afterwards contain [extra], and a
    second construction with no overrides attaches an [extra] method. *)
Theorem defaults_mutated_through_alias :
  let s0 := boot document "now" in
  let s1 := fst (new_Cli quiet_run extra_method s0) in
  let s2 := fst (new_Cli quiet_run (obj []) s1) in
  snd (new_Cli quiet_run extra_method s0) = Normal tt
  /\ own_get (default_setting s0 "logging") "extra" = VUndef
  /\ own_get (default_setting s1 "logging") "extra"
     = obj [("verbose", VBool false)]
  /\ obj_get (logs s2) "extra" = Some (obj [("verbose", VBool false)]).
Proof. repeat split. Qed.

(** The write goes through for every mapping the instance still shares with
    the defaults. *)
Lemma shared_mapping_is_mutated ov k s c dps oc ops :
  wf s -> obj_get (defaults s) k = obj_get (settings s) k ->
  setting s k = VObj c dps -> own_get ov k = VObj oc ops ->
  default_setting (fst (merge_key ov k s)) k
  = VObj c (Extend.extend_props Extend.assigned (enumerable oc ops) dps).
Proof.
  intros Hwf Hshare Hd Ho.
  destruct (merge_key_objects ov k s c dps oc ops Hd Ho) as (l & Hl & ->).
  unfold default_setting. simpl. rewrite Hshare, Hl.
  unfold read. simpl. rewrite list_lookup_insert_eq; [done|].
  destruct Hwf as [_ Hb]. eauto.
Qed.

(** An array is safe: [concat] builds a new one. *)
Lemma shared_array_is_kept ov k s d o :
  wf s -> obj_get (defaults s) k = obj_get (settings s) k ->
  setting s k = VArr d -> own_get ov k = VArr o ->
  default_setting (fst (merge_key ov k s)) k = VArr d.
Proof.
  intros Hwf Hshare Hd Ho. rewrite (merge_key_arrays ov k s d o Hd Ho).
  unfold default_setting. simpl. rewrite Hshare.
  unfold setting in Hd.
  destruct (obj_get (settings s) k) as [l|] eqn:Hl.
  - rewrite <- Hd. apply StateFacts.read_bound_old.
    destruct Hwf as [_ Hb]. eauto.
  - done.
Qed.

End Construction.

(** ** More about [mergeSettings] *)

Module MergeMore.

Import Cli Inv Props Sample Extend.
Import ObjFacts StateFacts ExtendFacts MergeFacts SampleFacts.

Ltac distinct_strings :=
  vm_compute; repeat constructor; intros H;
  repeat (apply elem_of_cons in H as [H|H]; [discriminate|]);
  by apply elem_of_nil in H.

Lemma key_effect_fields s k s' :
  key_effect s k s' ->
  options s' = options s /\ logs s' = logs s /\ defaults s' = defaults s
  /\ now s' = now s /\ out s' = out s.
Proof. by intros [ |v|l v Hl]. Qed.

Lemma key_effect_present s k s' j l :
  key_effect s k s' -> obj_get (settings s) j = Some l ->
  exists l', obj_get (settings s') j = Some l'.
Proof.
  intros [ |v|l0 v Hl] Hj; simpl; eauto.
  rewrite obj_get_set. destruct (String.eqb k j); eauto.
Qed.

(** A property of the state that every round keeps is kept by the loop. *)
Lemma forEach_keeps (P : state -> Prop) ov :
  (forall s k, P s -> P (fst (merge_key ov k s))) ->
  forall keys s, P s -> P (fst (forEach keys (merge_key ov) s)).
Proof.
  intros Hstep keys. induction keys as [|k keys IH]; intros s HP; [done|].
  rewrite forEach_cons. specialize (Hstep s k HP).
  destruct (merge_key ov k s) as [s1 [[]|e|c]]; simpl in *; auto.
Qed.

Lemma forEach_never_exits ov keys : forall s c,
  snd (forEach keys (merge_key ov) s) <> Exit c.
Proof.
  induction keys as [|k keys IH]; intros s c; [done|].
  rewrite forEach_cons. pose proof (merge_key_never_exits ov k s) as Hk.
  destruct (merge_key ov k s) as [s1 [[]|e|c1]]; simpl in *;
    [apply IH|done|by destruct (Hk c1)].
Qed.

(** [mergeSettings] is the loop, or it stops before the first round. *)
Lemma mergeSettings_cases ov s :
  mergeSettings ov s = forEach (own_keys ov) (merge_key ov) s
  \/ exists e, mergeSettings ov s = (s, Throw e).
Proof. destruct ov; simpl; eauto. Qed.

Lemma mergeSettings_keeps (P : state -> Prop) ov s :
  (forall s k, P s -> P (fst (merge_key ov k s))) ->
  P s -> P (fst (mergeSettings ov s)).
Proof.
  intros Hstep HP. destruct (mergeSettings_cases ov s) as [->|[e ->]];
    [by apply forEach_keeps|done].
Qed.

Lemma merge_key_bound ov k s :
  (typeof (setting s k) = typeof (own_get ov k)
   /\ typeof (own_get ov k) <> TObject)
  \/ typeof (setting s k) = TUndefined ->
  merge_key ov k s = (bound s k (own_get ov k), Normal tt).
Proof.
  unfold merge_key, mbind, M_bind, bind, get.
  intros [[Heq Hno]|Hu].
  - rewrite Heq.
    assert (jstype_eqb (typeof (own_get ov k)) (typeof (own_get ov k)) = true)
      as -> by (by apply jstype_eqb_eq).
    by destruct (typeof (own_get ov k)).
  - rewrite Hu. destruct (typeof (own_get ov k)) eqn:Hv; simpl; try done.
Qed.

(** X1. A completed merge leaves the override's value at every key whose
    default has the same type, when that type is not ['object']. *)
Theorem primitive_override_wins s overrides k s' :
  wf s -> NoDup (own_keys overrides) -> In k (own_keys overrides) ->
  typeof (setting s k) = typeof (own_get overrides k) ->
  typeof (own_get overrides k) <> TObject ->
  mergeSettings overrides s = (s', Normal tt) ->
  setting s' k = own_get overrides k.
Proof.
  intros Hwf Hnd Hin Hty Hno Hrun.
  rewrite (mergeSettings_keys _ k) in Hrun by done.
  destruct (round_of _ _ _ _ _ Hwf Hnd Hin Hrun) as (s1 & _ & Hs1 & _ & Hk).
  rewrite Hk, merge_key_bound by (left; by rewrite Hs1).
  apply setting_bound_eq.
Qed.

Lemma primitive_override_wins_witness :
  setting (fst (mergeSettings mistyped_name (fresh document))) "description"
  = VStr "renamed".
Proof.
  apply (primitive_override_wins (fresh document) mistyped_name "description").
  - apply wf_fresh.
  - distinct_strings.
  - right. by left.
  - reflexivity.
  - simpl. discriminate.
  - reflexivity.
Defined.







(** X5. [mergeSettings] stays inside the settings: it prints nothing, leaves
    the clock and the key table of the defaults as they are, and never ends
    the process. *)
Theorem merge_touches_settings_only s overrides :
  same_process s (fst (mergeSettings overrides s))
  /\ forall c, snd (mergeSettings overrides s) <> Exit c.
Proof.
  split.
  - apply (mergeSettings_keeps (same_process s)); [|done].
    intros s1 k (H1 & H2 & H3).
    destruct (key_effect_fields _ _ _ (merge_key_effect overrides k s1))
      as (_ & _ & E1 & E2 & E3).
    repeat split; congruence.
  - intros c. destruct (mergeSettings_cases overrides s) as [->|[e ->]];
      [apply forEach_never_exits|done].
Qed.

(** With values as trees, a merge leaves the settings without shared
    cells. *)
Lemma mergeSettings_wf ov s : wf s -> wf (fst (mergeSettings ov s)).
Proof.
  apply (mergeSettings_keeps wf). intros s1 k H.
  eapply key_effect_wf; [done|apply merge_key_effect].
Qed.

(** X6. [mergeSettings] never removes a settings key: a key the settings
    had before the call is a key afterwards, however the merge ends. *)
Theorem merge_keeps_keys s overrides k :
  In k (map fst (settings s)) ->
  In k (map fst (settings (fst (mergeSettings overrides s)))).
Proof.
  intros Hk.
  apply (mergeSettings_keeps
           (fun s' => In k (map fst (settings s')))); [|done].
  intros s1 j H. apply obj_get_Some in H as [l Hl].
  destruct (key_effect_present _ _ _ _ _ (merge_key_effect overrides j s1) Hl)
    as [l' Hl'].
  by eapply obj_get_In.
Qed.

Lemma merge_keeps_keys_witness :
  In "logging"
    (map fst (settings (fst (mergeSettings list_for_logging (fresh document))))).
Proof.
  apply (merge_keeps_keys (fresh document) list_for_logging "logging").
  simpl. tauto.
Defined.

End MergeMore.

(** ** What a merge does to the defaults, and repeated merges *)

Module Sharing.

Import Cli Inv Props Sample Extend.
Import ObjFacts StateFacts ExtendFacts MergeFacts SampleFacts MergeMore.

Lemma entry_guarded s : wf s -> settings s = defaults s -> defaults_guarded s.
Proof.
  intros [Hi Hb] Heq. split; rewrite <- Heq; [apply Hi|apply Hb].
Qed.

(** A round that mutates a cell in place extends an object, and what it
    extends it with is an object or [null]. *)
Lemma merge_key_shape ov k s :
  fst (merge_key ov k s) = s
  \/ (exists v, fst (merge_key ov k s) = bound s k v)
  \/ (exists l,
        obj_get (settings s) k = Some l
        /\ is_object (setting s k) = true
        /\ (own_get ov k = VNull \/ is_object (own_get ov k) = true)
        /\ fst (merge_key ov k s)
           = written s l (extend (setting s k) (own_get ov k))).
Proof.
  unfold merge_key, mbind, M_bind, bind, get. simpl.
  destruct (setting s k) as [| |b|n|x|f|a|c dps] eqn:Hd,
           (own_get ov k) as [| |b'|n'|x'|f'|a'|c' ops] eqn:Ho;
    simpl; rewrite ?run_assign; simpl; eauto.
  - destruct (obj_get (settings s) k) as [l|] eqn:Hl;
      rewrite ?run_assign, ?run_write; simpl; eauto 10.
  - destruct (obj_get (settings s) k) as [l|] eqn:Hl;
      rewrite ?run_assign, ?run_write; simpl; eauto 10.
Qed.

Lemma guarded_round ov k s :
  defaults_guarded s -> defaults_guarded (fst (merge_key ov k s)).
Proof.
  intros [Ha Hb]. destruct (merge_key_effect ov k s) as [ |v|l v Hl].
  - done.
  - split; simpl.
    + intros j k' l. rewrite obj_get_set.
      destruct (String.eqb_spec k j) as [Hkj|Hkj]; [|apply Ha].
      intros [= <-] Hk'. apply Hb in Hk'. lia.
    + intros k' l Hk'. rewrite length_app. apply Hb in Hk'. lia.
  - split; simpl; [done|].
    intros k' l' Hk'. rewrite length_insert. eauto.
Qed.




Lemma array_round s ov k d o s' :
  wf s -> NoDup (own_keys ov) ->
  setting s k = VArr d -> own_get ov k = VArr o ->
  mergeSettings ov s = (s', Normal tt) ->
  setting s' k = VArr (d ++ o).
Proof.
  intros Hwf Hnd Hd Ho Hrun.
  assert (In k (own_keys ov)) as Hin by (by eapply own_get_In).
  rewrite (mergeSettings_keys _ k) in Hrun by done.
  destruct (round_of _ _ _ _ _ Hwf Hnd Hin Hrun) as (s1 & _ & Hs1 & _ & Hk).
  rewrite Hk, (merge_key_arrays _ _ _ d o) by congruence.
  apply setting_bound_eq.
Qed.

(** X8. Merging is not idempotent on arrays: merging the same overrides a
    second time appends the override array once more. *)
Theorem arrays_append_on_every_merge s overrides k d o s1 s2 :
  wf s -> NoDup (own_keys overrides) ->
  setting s k = VArr d -> own_get overrides k = VArr o ->
  mergeSettings overrides s = (s1, Normal tt) ->
  mergeSettings overrides s1 = (s2, Normal tt) ->
  setting s2 k = VArr (d ++ o ++ o).
Proof.
  intros Hwf Hnd Hd Ho H1 H2.
  pose proof (mergeSettings_wf overrides s Hwf) as Hwf1.
  rewrite H1 in Hwf1. simpl in Hwf1.
  pose proof (array_round s overrides k d o s1 Hwf Hnd Hd Ho H1) as Hd1.
  rewrite app_assoc.
  by apply (array_round s1 overrides k (d ++ o) o s2).
Qed.

Lemma arrays_append_on_every_merge_witness :
  setting
    (fst (mergeSettings (obj [("optionDefinitions", VArr [VStr "x"])])
            (fst (mergeSettings (obj [("optionDefinitions", VArr [VStr "x"])])
                    (fresh [("optionDefinitions", VArr [VStr "d"])])))))
    "optionDefinitions"
  = VArr [VStr "d"; VStr "x"; VStr "x"].
Proof.
  apply (arrays_append_on_every_merge
           (fresh [("optionDefinitions", VArr [VStr "d"])])
           (obj [("optionDefinitions", VArr [VStr "x"])])
           "optionDefinitions" [VStr "d"] [VStr "x"]
           (fst (mergeSettings (obj [("optionDefinitions", VArr [VStr "x"])])
                   (fresh [("optionDefinitions", VArr [VStr "d"])]))));
    try reflexivity.
  - apply wf_fresh.
  - distinct_strings.
Defined.

Lemma extend_props_keeps ops : forall tps j v,
  obj_get tps j = Some v ->
  exists w, obj_get (extend_props assigned ops tps) j = Some w.
Proof.
  induction ops as [|[name copy] rest IH]; intros tps j v Hj; [eauto|].
  rewrite extend_props_cons.
  destruct (assigned (src_of tps name) copy) as [u|]; [|eauto].
  destruct (String.eqb_spec name j) as [->|Hne].
  - apply (IH _ j u), obj_get_set_eq.
  - apply (IH _ j v). by rewrite obj_get_set_ne.
Qed.

(** X9. The deep merge of two objects never drops a key of the default:
    after a completed merge, every property the default object had at a key
    is still a property of the object found there. *)
Theorem deep_merge_keeps_default_keys s overrides k c dps oc ops s' j v :
  wf s -> NoDup (own_keys overrides) ->
  setting s k = VObj c dps -> own_get overrides k = VObj oc ops ->
  mergeSettings overrides s = (s', Normal tt) ->
  obj_get dps j = Some v ->
  exists rps w, setting s' k = VObj c rps /\ obj_get rps j = Some w.
Proof.
  intros Hwf Hnd Hd Ho Hrun Hj.
  assert (In k (own_keys overrides)) as Hin by (by eapply own_get_In).
  rewrite (mergeSettings_keys _ k) in Hrun by done.
  destruct (round_of _ _ _ _ _ Hwf Hnd Hin Hrun)
    as (s1 & Hwf1 & Hs1 & _ & Hk).
  rewrite Hd in Hs1.
  destruct (merge_key_objects _ _ _ _ _ _ _ Hs1 Ho) as (l & Hl & Hstep).
  rewrite Hstep in Hk. simpl in Hk.
  rewrite setting_written_eq in Hk by done.
  destruct (extend_props_keeps (enumerable oc ops) dps j v Hj) as [w Hw].
  eauto.
Qed.

Lemma deep_merge_keeps_default_keys_witness :
  exists rps w,
    setting (fst (mergeSettings paths_override (fresh paths_document))) "paths"
    = VObj Plain rps
    /\ obj_get rps "root" = Some w.
Proof.
  apply (deep_merge_keeps_default_keys (fresh paths_document) paths_override
           "paths" Plain
           [("root", VStr "/srv");
            ("include", VArr [VStr "a"; VStr "b"]);
            ("cache", obj [("dir", VStr "tmp"); ("ttl", VNum 60)])]
           Plain
           [("include", VArr [VStr "c"]);
            ("cache", obj [("ttl", VNum 5)]);
            ("depth", VNum 2);
            ("root", VUndef)]
           (fst (mergeSettings paths_override (fresh paths_document)))
           "root" (VStr "/srv")); try reflexivity.
  - apply wf_fresh.
  - distinct_strings.
Defined.

End Sharing.

(** ** More about [colorize] and [enableLogging] *)

Module Generation.

Import Cli Inv Props Sample.
Import ObjFacts MergeFacts MergeMore Construction.

Lemma paint_typeof f v : typeof (paint f v) = typeof v.
Proof. by destruct v. Qed.

Lemma paint_other f v : typeof v <> TString -> paint f v = v.
Proof. by destruct v. Qed.

(** Whatever function of [colors] is applied: an element that is not a
    string is not handed to it, and the array keeps its length. *)
Lemma recolor_elems_shape g a : forall s s' a',
  recolor_elems g a s = (s', Normal a') ->
  length a' = length a
  /\ forall i v, a !! i = Some v -> typeof v <> TString -> a' !! i = Some v.
Proof.
  induction a as [|v a IH]; intros s s' a'; simpl.
  - by intros [= <- <-].
  - unfold mbind, M_bind, bind.
    destruct (recolor g v s) as [s1 [w|e|c]] eqn:Hv; try done.
    destruct (recolor_elems g a s1) as [s2 [r|e|c]] eqn:Hr; try done.
    intros [= <- <-]. destruct (IH _ _ _ Hr) as [Hlen Hkeep].
    split; [simpl; by rewrite Hlen|].
    intros [|i] x Hx Hty; simpl in *; [|by eapply Hkeep].
    injection Hx as ->. destruct x; try done; by injection Hv as <- <-.
Qed.

(** X10. Given an array and, for a color, a string that is blank, names no
    function of [colors] or names a style of [colors], [colorize] never
    throws and leaves the state alone.  The array keeps its length; an
    element that is not a string stays as it is, arrays and objects among
    the elements included (nothing below the top level is colorized); a
    string stays a string.  For any string as color, if [colorize] returns
    then it returns an array of the same length in which the elements that
    were not strings are unchanged. *)
Theorem colorize_array_shape E a c s :
  (forall h, colors_with E c h ->
     exists a',
       colorize E (VArr a) (VStr c) s = (s, Normal (VArr a'))
       /\ length a' = length a
       /\ (forall i v, a !! i = Some v -> typeof v <> TString ->
             a' !! i = Some v)
       /\ (forall i v, a !! i = Some v -> typeof v = TString ->
             exists y, a' !! i = Some (VStr y)))
  /\ (forall s' r,
        colorize E (VArr a) (VStr c) s = (s', Normal r) ->
        exists a',
          r = VArr a' /\ length a' = length a
          /\ (forall i v, a !! i = Some v -> typeof v <> TString ->
                a' !! i = Some v)).
Proof.
  split.
  - intros h Hw. exists (map (tint h) a).
    split; [by apply LogFacts.colorize_array_with|].
    split; [apply length_map|]. split.
    + intros i v Hi Hv. rewrite list_lookup_fmap, Hi. simpl.
      destruct h; simpl; [by rewrite paint_other|done].
    + intros i v Hi Hv. rewrite list_lookup_fmap, Hi.
      destruct v; try done. destruct h; simpl; eauto.
  - intros s' r. unfold colorize.
    destruct (if blank c then None else color_fn E c) as [g|].
    + unfold mbind, M_bind, bind.
      destruct (recolor_elems g a s) as [s1 [a1| |]] eqn:Hr; try done.
      intros [= <- <-]. exists a1. split; [done|].
      by apply (recolor_elems_shape g a s s1).
    + intros [= <- <-]. eauto.
Qed.

Lemma colorize_array_shape_witness :
  exists a',
    colorize quiet_run (VArr [VStr "x"; VArr [VStr "y"]; VNum 3]) (VStr "red")
      (fresh document)
    = (fresh document, Normal (VArr a'))
    /\ length a' = 3
    /\ a' !! 1 = Some (VArr [VStr "y"])
    /\ exists y, a' !! 0 = Some (VStr y).
Proof.
  destruct (proj1 (colorize_array_shape quiet_run
                     [VStr "x"; VArr [VStr "y"]; VNum 3] "red"
                     (fresh document))
              (Some (ansi "31"))
              (conj eq_refl
                 (LogFacts.palette_style quiet_run "red" "31"
                    eq_refl eq_refl)))
    as (a' & Hrun & Hlen & Hkeep & Hstr).
  exists a'. split; [exact Hrun|]. split; [exact Hlen|]. split.
  - apply (Hkeep 1 (VArr [VStr "y"])); [reflexivity|discriminate].
  - apply (Hstr 0 (VStr "x")); reflexivity.
Defined.

(** X11. With a name of a style of [colors] for a color, [colorize] throws
    on one argument only, [null]; every other argument comes back with the
    type it had, and the state is left alone.  With a string that is blank
    or names no function of [colors], every argument comes back, [null]
    included. *)
Theorem colorize_throws_on_null_only E args c h s :
  colors_with E c h ->
  (args <> VNull ->
     exists r, colorize E args (VStr c) s = (s, Normal r)
               /\ typeof r = typeof args)
  /\ (h = None -> colorize E args (VStr c) s = (s, Normal args))
  /\ (forall f, h = Some f ->
        exists e, colorize E VNull (VStr c) s = (s, Throw e)).
Proof.
  unfold colors_with, colorize. destruct h as [f|].
  - intros (-> & g & -> & Hg). split; [|split; [done|]].
    + intros Hnull. unfold mbind, M_bind, bind.
      destruct args; try done; eauto.
      * rewrite (LogFacts.apply_color_style g f _ s Hg). eauto.
      * rewrite (LogFacts.recolor_elems_style g f _ s Hg). eauto.
      * rewrite (LogFacts.recolor_props_style g f _ _ s Hg). eauto.
    + intros _ _. unfold type_error, throw. eauto.
  - intros Hn.
    assert ((if blank c then None else color_fn E c) = None) as ->
      by (destruct Hn as [->| ->]; [done|by destruct (blank c)]).
    split; [eauto|]. split; [done|]. done.
Qed.

Lemma colorize_throws_on_null_only_witness :
  (exists r,
      colorize quiet_run (obj [("a", VStr "x")]) (VStr "red") (fresh document)
      = (fresh document, Normal r)
      /\ typeof r = TObject)
  /\ exists e,
       colorize quiet_run VNull (VStr "red") (fresh document)
       = (fresh document, Throw e).
Proof.
  split.
  - apply (proj1 (colorize_throws_on_null_only quiet_run
                    (obj [("a", VStr "x")]) "red" (Some (ansi "31"))
                    (fresh document)
                    (conj eq_refl
                       (LogFacts.palette_style quiet_run "red" "31"
                          eq_refl eq_refl)))).
    discriminate.
  - apply (proj2 (proj2 (colorize_throws_on_null_only quiet_run VNull "red"
                           (Some (ansi "31")) (fresh document)
                           (conj eq_refl
                              (LogFacts.palette_style quiet_run "red" "31"
                                 eq_refl eq_refl))))
             (ansi "31")).
    reflexivity.
Defined.

(** A property of the state that every round of a [forEach] keeps is kept
    by the loop. *)
Lemma forEach_inv {A} (f : A -> M unit) (P : state -> Prop) :
  (forall s x, P s -> P (fst (f x s))) ->
  forall l s, P s -> P (fst (forEach l f s)).
Proof.
  intros Hstep l. induction l as [|x l IH]; intros s HP; [done|].
  rewrite forEach_cons. specialize (Hstep s x HP).
  destruct (f x s) as [s1 [[]|e|c]]; simpl in *; auto.
Qed.

Lemma enableLogging_cases s :
  enableLogging s
  = forEach (own_keys (setting s "logging"))
      (attach_method (setting s "logging")) s
  \/ (exists e, enableLogging s = (s, Throw e))
  \/ enableLogging s = (s, Normal tt).
Proof.
  unfold enableLogging, mbind, M_bind, bind, get.
  destruct (setting s "logging"); simpl; eauto.
Qed.

Lemma enableLogging_keeps (P : state -> Prop) s :
  (forall s1 m, P s1 ->
     P (fst (attach_method (setting s "logging") m s1))) ->
  P s -> P (fst (enableLogging s)).
Proof.
  intros Hstep HP.
  destruct (enableLogging_cases s) as [->|[[e ->]| ->]]; try done.
  by apply forEach_inv.
Qed.

Lemma attach_method_cases logging m s :
  (has_member s m = true /\ fst (attach_method logging m s) = s)
  \/ (has_member s m = false
      /\ fst (attach_method logging m s)
         = with_logs s (obj_set (logs s) m (own_get logging m))).
Proof.
  destruct (has_member s m) eqn:H.
  - left. by rewrite attach_method_taken.
  - right. by rewrite attach_method_free.
Qed.

(** X12. [enableLogging] never replaces a member the instance already has:
    for a name that is an own property, a class method, an inherited member
    or an attached log method, what is attached under that name afterwards
    is what was attached before, however the generation ends. *)
Theorem existing_members_never_replaced s m :
  has_member s m = true ->
  obj_get (logs (fst (enableLogging s))) m = obj_get (logs s) m
  /\ has_member (fst (enableLogging s)) m = true.
Proof.
  intros Hm.
  apply (enableLogging_keeps
           (fun s' => obj_get (logs s') m = obj_get (logs s) m
                      /\ has_member s' m = true)); [|done].
  intros s1 j [Hlogs Hhas].
  destruct (attach_method_cases (setting s "logging") j s1)
    as [[_ ->]|[Hfree ->]]; [done|].
  assert (j <> m) as Hne by (intros ->; congruence).
  assert (obj_get (logs (with_logs s1 (obj_set (logs s1) j
                           (own_get (setting s "logging") j)))) m
          = obj_get (logs s1) m) as Hsame
    by (by apply obj_get_set_ne).
  split; [by rewrite Hsame|].
  by rewrite (has_member_logs s1 _ m Hsame).
Qed.

Lemma existing_members_never_replaced_witness :
  obj_get
    (logs (fst (enableLogging
                  (with_settings (boot [("logging", colliding_methods)] "now")
                     [("logging", 0)])))) "options"
  = None.
Proof.
  apply (existing_members_never_replaced
           (with_settings (boot [("logging", colliding_methods)] "now")
              [("logging", 0)]) "options").
  reflexivity.
Defined.

Lemma attach_method_fields logging m s :
  let s' := fst (attach_method logging m s) in
  store s' = store s /\ settings s' = settings s /\ options s' = options s
  /\ out s' = out s /\ defaults s' = defaults s /\ now s' = now s.
Proof.
  destruct (attach_method_cases logging m s) as [[_ H]|[_ H]];
    simpl; by rewrite H.
Qed.

Lemma enableLogging_fields s :
  let s' := fst (enableLogging s) in
  store s' = store s /\ settings s' = settings s /\ options s' = options s
  /\ out s' = out s /\ defaults s' = defaults s /\ now s' = now s.
Proof.
  apply (enableLogging_keeps
           (fun s' => store s' = store s /\ settings s' = settings s
                      /\ options s' = options s /\ out s' = out s
                      /\ defaults s' = defaults s /\ now s' = now s));
    [|done].
  intros s1 m (H1 & H2 & H3 & H4 & H5 & H6).
  destruct (attach_method_fields (setting s "logging") m s1)
    as (E1 & E2 & E3 & E4 & E5 & E6).
  repeat split; congruence.
Qed.

Lemma enableLogging_loop s :
  typeof (setting s "logging") = TObject -> setting s "logging" <> VNull ->
  enableLogging s
  = forEach (own_keys (setting s "logging"))
      (attach_method (setting s "logging")) s.
Proof.
  intros Hty Hnull. unfold enableLogging, mbind, M_bind, bind, get.
  by destruct (setting s "logging").
Qed.

Lemma free_names_attached_state s :
  typeof (setting s "logging") = TObject -> setting s "logging" <> VNull ->
  NoDup (own_keys (setting s "logging")) ->
  (forall j, In j (own_keys (setting s "logging")) -> has_member s j = false) ->
  exists s',
    enableLogging s = (s', Normal tt)
    /\ (forall j, In j (own_keys (setting s "logging")) ->
          obj_get (logs s') j = Some (own_get (setting s "logging") j))
    /\ (forall j, ~ In j (own_keys (setting s "logging")) ->
          obj_get (logs s') j = obj_get (logs s) j)
    /\ store s' = store s /\ settings s' = settings s
    /\ options s' = options s /\ out s' = out s.
Proof.
  intros Hty Hnull Hnd Hfree.
  pose proof (enableLogging_fields s) as (F1 & F2 & F3 & F4 & _).
  rewrite enableLogging_loop in * by done.
  destruct (attach_all (setting s "logging") _ s Hnd Hfree)
    as (s1 & Hrun & Hdef & Hoth).
  rewrite Hrun in *. simpl in *. exists s1. by repeat split.
Qed.

(** X13. When the logging configuration is an object and none of its names
    is taken, [enableLogging] completes: every name has its method, with the
    configuration found under that name; no other name gains or loses a
    method; settings, store, options and console are as before. *)
Theorem free_names_are_all_attached s :
  typeof (setting s "logging") = TObject -> setting s "logging" <> VNull ->
  NoDup (own_keys (setting s "logging")) ->
  (forall j, In j (own_keys (setting s "logging")) -> has_member s j = false) ->
  exists s',
    enableLogging s = (s', Normal tt)
    /\ (forall j, In j (own_keys (setting s "logging")) ->
          obj_get (logs s') j = Some (own_get (setting s "logging") j))
    /\ (forall j, ~ In j (own_keys (setting s "logging")) ->
          obj_get (logs s') j = obj_get (logs s) j)
    /\ store s' = store s /\ settings s' = settings s
    /\ options s' = options s /\ out s' = out s.
Proof. apply free_names_attached_state. Qed.

Lemma free_names_are_all_attached_witness :
  exists s',
    enableLogging (fresh document) = (s', Normal tt)
    /\ (forall j, In j (own_keys (setting (fresh document) "logging")) ->
          obj_get (logs s') j
          = Some (own_get (setting (fresh document) "logging") j))
    /\ (forall j, ~ In j (own_keys (setting (fresh document) "logging")) ->
          obj_get (logs s') j = obj_get (logs (fresh document)) j)
    /\ store s' = store (fresh document)
    /\ settings s' = settings (fresh document)
    /\ options s' = options (fresh document)
    /\ out s' = out (fresh document).
Proof.
  apply (free_names_are_all_attached (fresh document)).
  - reflexivity.
  - discriminate.
  - distinct_strings.
  - intros j [<-|[<-|[<-|[<-|[]]]]]; reflexivity.
Defined.

(** X14. [enableLogging] cannot be run twice: after a run that attached
    the methods of a configuration with at least one name, a second run
    throws the collision error for the first name and changes nothing. *)
Theorem second_generation_collides s m rest :
  own_keys (setting s "logging") = m :: rest ->
  NoDup (own_keys (setting s "logging")) ->
  (forall j, In j (own_keys (setting s "logging")) -> has_member s j = false) ->
  exists s',
    enableLogging s = (s', Normal tt)
    /\ enableLogging s'
       = (s', Throw (mk_error "Error" (collision_message m))).
Proof.
  intros Hkeys Hnd Hfree.
  assert (typeof (setting s "logging") = TObject
          /\ setting s "logging" <> VNull) as [Hty Hnull]
    by (destruct (setting s "logging"); done).
  destruct (free_names_attached_state s Hty Hnull Hnd Hfree)
    as (s' & Hrun & Hdef & _ & Hstore & Hsettings & _).
  exists s'. split; [done|].
  assert (setting s' "logging" = setting s "logging") as Hlog.
  { unfold setting, read. by rewrite Hstore, Hsettings. }
  rewrite enableLogging_loop by (by rewrite Hlog).
  rewrite Hlog, Hkeys, forEach_cons, attach_method_taken; [done|].
  unfold has_member. rewrite Hdef; [done|]. rewrite Hkeys. by left.
Qed.

Lemma second_generation_collides_witness :
  exists s',
    enableLogging (fresh document) = (s', Normal tt)
    /\ enableLogging s'
       = (s', Throw (mk_error "Error" (collision_message "log"))).
Proof.
  apply (second_generation_collides (fresh document) "log"
           ["warn"; "error"; "debug"]).
  - reflexivity.
  - distinct_strings.
  - intros j [<-|[<-|[<-|[<-|[]]]]]; reflexivity.
Defined.

End Generation.

(** ** More about the generated log methods *)

Module LoggingMore.

Import Cli Inv Props Sample.
Import ObjFacts LogFacts.

Lemma member_of_value v k :
  has_members v = true -> member v k = ret (get_prop v k).
Proof. by destruct v. Qed.

(** X15. A method whose configuration is not [null] or [undefined] does
    nothing at all, whatever its color, prefix and [throws] say, when
    [options.quiet] is set, and also when the method is verbose-only and
    [options.verbose] is not set. *)
Theorem closed_gate_is_silent E method cfg args s :
  has_members cfg = true ->
  truthy (option_flag s "quiet") = true
  \/ (truthy (get_prop cfg "verbose") = true
      /\ truthy (option_flag s "verbose") = false) ->
  log_method E method cfg args s = (s, Normal tt).
Proof.
  intros Hm Hgate. unfold log_method. rewrite member_of_value by done.
  unfold mbind at 1 2. unfold M_bind, bind at 1 2. unfold ret at 1, get at 1.
  assert (visible (get_prop cfg "verbose") s = false) as ->; [|done].
  unfold visible. destruct Hgate as [->|[-> ->]]; [|done].
  apply andb_false_r.
Qed.

Lemma closed_gate_is_silent_witness :
  log_method quiet_run "error" error_config [VStr "boom"]
    (session [("quiet", VBool true)] [("error", error_config)])
  = (session [("quiet", VBool true)] [("error", error_config)], Normal tt).
Proof.
  apply (closed_gate_is_silent quiet_run "error" error_config [VStr "boom"]
           (session [("quiet", VBool true)] [("error", error_config)])).
  - reflexivity.
  - left. reflexivity.
Defined.

(** X16. A broken configuration shows at the call, before anything is
    printed.  A method generated from [null] or [undefined] throws a
    [TypeError] on every call; so does a visible call of a method whose
    [color] is not a string but reads, as a property name, as a function of
    [colors] (such as the array [['red']]). *)
Theorem broken_config_throws_at_call E method cfg args s :
  (has_members cfg = false ->
     exists msg,
       log_method E method cfg args s = (s, Throw (mk_error "TypeError" msg)))
  /\ (forall f,
        has_members cfg = true ->
        visible (get_prop cfg "verbose") s = true ->
        typeof (get_prop cfg "color") <> TString ->
        color_fn E (to_string (get_prop cfg "color")) = Some f ->
        exists msg,
          log_method E method cfg args s
          = (s, Throw (mk_error "TypeError" msg))).
Proof.
  split.
  - intros Hm. destruct cfg; try done; unfold log_method; simpl; eauto.
  - intros f Hm Hv Hc Hf. unfold log_method. rewrite member_of_value by done.
    unfold mbind at 1 2. unfold M_bind, bind at 1 2.
    unfold ret at 1, get at 1. rewrite Hv, Hf.
    unfold mbind at 1. unfold M_bind, bind at 1.
    unfold colorize_list, colorize, mbind, M_bind, bind.
    destruct (get_prop cfg "color"); try done; simpl; eauto.
Qed.

Lemma broken_config_throws_at_call_witness :
  (exists msg,
      log_method quiet_run "warn" VNull [VStr "x"] (session [] [])
      = (session [] [], Throw (mk_error "TypeError" msg)))
  /\ exists msg,
       log_method quiet_run "warn" (obj [("color", VArr [VStr "red"])])
         [VStr "x"] (session [] [])
       = (session [] [], Throw (mk_error "TypeError" msg)).
Proof.
  split.
  - apply (proj1 (broken_config_throws_at_call quiet_run "warn" VNull
                    [VStr "x"] (session [] []))).
    reflexivity.
  - apply (proj2 (broken_config_throws_at_call quiet_run "warn"
                    (obj [("color", VArr [VStr "red"])])
                    [VStr "x"] (session [] [])) (style (ansi "31")));
      try reflexivity.
    simpl. discriminate.
Defined.

(** X17. A call of a log method is an output operation only: with a
    configuration that has members and a color that is absent, blank, no
    function of [colors] or a style of [colors], it makes at most one console
    call, on the channel named after the method when the console has one and
    on [log] otherwise, leaves store, settings, options, attached methods and
    defaults as they are, and never ends the process. *)
Theorem log_call_only_prints E method cfg h args s :
  has_members cfg = true -> paints E cfg h ->
  let s' := fst (log_method E method cfg args s) in
  (out s' = out s
   \/ exists output, out s' = out s ++ [Console (channel E method) output])
  /\ store s' = store s /\ settings s' = settings s
  /\ options s' = options s /\ logs s' = logs s /\ defaults s' = defaults s
  /\ forall c, snd (log_method E method cfg args s) <> Exit c.
Proof.
  intros Hm Hc.
  rewrite (log_method_run_members E method cfg h args s)
    by (by try apply member_of_value).
  destruct (visible (get_prop cfg "verbose") s); simpl.
  - split; [right; eauto|]. repeat split; try done.
    intros c. by destruct (escalates cfg s).
  - split; [by left|]. by repeat split.
Qed.

Lemma log_call_only_prints_witness :
  let s := session [("verbose", VBool true)] [("warn", warn_config)] in
  let s' := fst (log_method quiet_run "notice" warn_config [VStr "x"] s) in
  (out s' = out s
   \/ exists output, out s' = out s ++ [Console "log" output])
  /\ store s' = store s /\ settings s' = settings s
  /\ options s' = options s /\ logs s' = logs s /\ defaults s' = defaults s
  /\ forall c,
       snd (log_method quiet_run "notice" warn_config [VStr "x"] s) <> Exit c.
Proof.
  apply (log_call_only_prints quiet_run "notice" warn_config
           (Some (ansi "33")) [VStr "x"]
           (session [("verbose", VBool true)] [("warn", warn_config)]));
    [reflexivity|].
  split; [reflexivity|].
  exact (palette_style quiet_run "yellow" "33" eq_refl eq_refl).
Defined.

End LoggingMore.

(** ** The constructor, end to end *)

Module Lifecycle.

Import Cli Inv Props Sample.
Import ObjFacts MergeFacts MergeMore LogFacts LoggingMore Construction
       Generation.

Lemma constructor_phases E arg :
  new_Cli E arg
  = (modify (fun s => with_logs (with_settings (with_options s []) []) []) ;;
     try_catch (try_body E (or_empty arg)) (on_error E) ;;
     help_check E).
Proof. reflexivity. Qed.

(** *** How a computation can end *)

Section Endings.
Variable E : collab.

Lemma ez_ret {A} (a : A) : exits_with_help E (ret a).
Proof. intros s s' c H. discriminate. Qed.

Lemma ez_throw {A} e : exits_with_help E (@throw A e).
Proof. intros s s' c H. discriminate. Qed.

Lemma ez_modify f : exits_with_help E (modify f).
Proof. intros s s' c H. discriminate. Qed.

Lemma ez_get : exits_with_help E get.
Proof. intros s s' c H. discriminate. Qed.

Lemma ez_bind {A B} (m : M A) (f : A -> M B) :
  exits_with_help E m -> (forall a, exits_with_help E (f a)) ->
  exits_with_help E (m ≫= f).
Proof.
  intros Hm Hf s s' c. unfold mbind, M_bind, bind.
  destruct (m s) as [s1 [a|e|c1]] eqn:Hs; [apply Hf|done|].
  intros [= <- <-]. by apply (Hm s).
Qed.

Lemma ez_try {A} (m : M A) h :
  exits_with_help E m -> (forall e, exits_with_help E (h e)) ->
  exits_with_help E (try_catch m h).
Proof.
  intros Hm Hh s s' c. unfold try_catch.
  destruct (m s) as [s1 [a|e|c1]] eqn:Hs; [done|apply Hh|].
  intros [= <- <-]. by apply (Hm s).
Qed.

Lemma ez_forEach {A} (f : A -> M unit) l :
  (forall x, exits_with_help E (f x)) -> exits_with_help E (forEach l f).
Proof.
  intros Hf. induction l as [|x l IH]; [apply ez_ret|].
  simpl. apply ez_bind; [apply Hf|done].
Qed.

Lemma ez_call {A} (r : result A) : exits_with_help E (call r).
Proof. destruct r; [apply ez_ret|apply ez_throw]. Qed.

(** The usage text printed last is the renderer's result for the sections of
    the final state: printing does not touch the settings. *)
Lemma ez_showHelp {A} : exits_with_help E (@showHelp E A).
Proof.
  intros s s' c. unfold showHelp, mbind, M_bind, bind, get, emit, modify, exit.
  destruct (getUsage E (getHelpSections s)) as [u|e] eqn:Hu; simpl; [|done].
  intros [= <- <-]. split; [done|]. exists u, (out s). split; [|done].
  exact Hu.
Qed.

End Endings.

Ltac ends_with_help_by known :=
  repeat first
    [ known
    | apply ez_ret | apply ez_throw | apply ez_modify | apply ez_get
    | apply ez_call | apply ez_showHelp
    | apply ez_bind; [|intros ?]
    | apply ez_forEach; intros ?
    | match goal with
      | |- exits_with_help _ (if ?b then _ else _) => destruct b
      | |- exits_with_help _ (match ?x with _ => _ end) => destruct x
      end ].

Ltac ends_with_help := ends_with_help_by fail.

Lemma ez_merge_key E ov k : exits_with_help E (merge_key ov k).
Proof.
  unfold merge_key, assign_setting, alloc, write. ends_with_help.
  all: intros s s' c H; discriminate.
Qed.

Lemma ez_mergeSettings E ov : exits_with_help E (mergeSettings ov).
Proof.
  unfold mergeSettings, object_keys, type_error.
  ends_with_help_by ltac:(apply ez_merge_key).
Qed.

Lemma ez_enableLogging E : exits_with_help E enableLogging.
Proof.
  unfold enableLogging, object_keys, type_error, attach_method.
  ends_with_help.
Qed.

(** A function of [colors] prints, returns or throws; it does not end the
    process. *)
Lemma ez_recolor E g v : exits_with_help E (recolor g v).
Proof. unfold recolor, apply_color, emit. ends_with_help. Qed.

Lemma ez_recolor_elems E g a : exits_with_help E (recolor_elems g a).
Proof.
  induction a as [|v a IH]; simpl; [apply ez_ret|].
  ends_with_help_by ltac:(first [apply ez_recolor | apply IH]).
Qed.

Lemma ez_recolor_props E g keys ps :
  exits_with_help E (recolor_props g keys ps).
Proof.
  induction ps as [|[k v] ps IH]; simpl; [apply ez_ret|].
  ends_with_help_by ltac:(first [apply ez_recolor | apply IH]).
Qed.

Lemma ez_colorize E args color : exits_with_help E (colorize E args color).
Proof.
  unfold colorize, type_error, apply_color, emit.
  ends_with_help_by
    ltac:(first [apply ez_recolor_elems | apply ez_recolor_props]).
Qed.

Lemma ez_log_method E method cfg args :
  exits_with_help E (log_method E method cfg args).
Proof.
  unfold log_method, member, type_error, colorize_list, emit.
  ends_with_help_by ltac:(apply ez_colorize).
Qed.

Lemma ez_on_error E e : exits_with_help E (on_error E e).
Proof.
  unfold on_error, call_method, member, type_error, emit.
  ends_with_help_by ltac:(apply ez_log_method).
Qed.

Lemma ez_new_Cli E arg : exits_with_help E (new_Cli E arg).
Proof.
  rewrite constructor_phases. unfold try_body, help_check, setOptions.
  ends_with_help_by
    ltac:(first [ apply ez_mergeSettings | apply ez_enableLogging
                | apply ez_try; [|intros ?; apply ez_on_error] ]).
Qed.

(** X18. However a construction goes, if it ends the process it does so
    through the help screen: the exit code is 0, and the last console call
    is [console.log] with the usage text, that is, with what the usage
    renderer returns for the help sections of the settings the instance then
    has. *)
Theorem construction_exits_with_help_only E arg s s' c :
  new_Cli E arg s = (s', Exit c) ->
  c = 0%Z
  /\ exists u before,
       getUsage E (getHelpSections s') = Returns u
       /\ out s' = before ++ [Console "log" [u]].
Proof. apply ez_new_Cli. Qed.

Lemma construction_exits_with_help_only_witness :
  exists u before,
    getUsage bad_argv
      (getHelpSections (fst (new_Cli bad_argv (obj []) (boot document "now"))))
    = Returns u
    /\ out (fst (new_Cli bad_argv (obj []) (boot document "now")))
       = before ++ [Console "log" [u]].
Proof.
  apply (construction_exits_with_help_only bad_argv (obj [])
           (boot document "now")
           (fst (new_Cli bad_argv (obj []) (boot document "now"))) 0).
  vm_compute. reflexivity.
Defined.

End Lifecycle.

(** ** What a construction leaves behind *)

Module Outcome.

Import Cli Inv Props Sample.
Import ObjFacts MergeFacts MergeMore LogFacts LoggingMore Construction
       Generation Lifecycle.

Lemma nr_bind_r {A B} (m : M A) (f : A -> M B) :
  (forall a, never_returns (f a)) -> never_returns (m ≫= f).
Proof.
  intros Hf s s' b. unfold mbind, M_bind, bind.
  destruct (m s) as [s1 [a|e|c]]; [apply Hf|done|done].
Qed.

Lemma nr_showHelp {A} E : never_returns (@showHelp E A).
Proof.
  intros s s' a. unfold showHelp, mbind, M_bind, bind, get, emit, modify, exit.
  by destruct (getUsage E (getHelpSections s)).
Qed.

Lemma nr_on_error E e : never_returns (on_error E e).
Proof.
  unfold on_error. do 5 (apply nr_bind_r; intros ?). apply nr_showHelp.
Qed.

(** The constructor, phase by phase. *)
Lemma new_Cli_run E arg s :
  new_Cli E arg s =
  match mergeSettings (or_empty arg) (entry_state s) with
  | (s1, Normal _) =>
      match enableLogging s1 with
      | (s2, Normal _) =>
          match clArgs E (setting s2 "optionDefinitions") with
          | Returns o => help_check E (with_options s2 o)
          | Raises e =>
              match on_error E e s2 with
              | (s3, Normal _) => help_check E s3
              | r => r
              end
          end
      | (s2, Throw e) =>
          match on_error E e s2 with
          | (s3, Normal _) => help_check E s3
          | r => r
          end
      | (s2, Exit c) => (s2, Exit c)
      end
  | (s1, Throw e) =>
      match on_error E e s1 with
      | (s3, Normal _) => help_check E s3
      | r => r
      end
  | (s1, Exit c) => (s1, Exit c)
  end.
Proof.
  unfold new_Cli, constructor, try_catch, mbind, M_bind, bind, modify.
  cbv beta iota.
  change (with_settings
            (with_options
               (with_logs (with_settings (with_options s []) []) []) [])
            (defaults
               (with_options
                  (with_logs (with_settings (with_options s []) []) []) [])))
    with (entry_state s).
  fold (or_empty arg).
  destruct (mergeSettings (or_empty arg) (entry_state s))
    as [s1 [[]|e|c]]; [|by destruct (on_error E e s1) as [s3 [[]|e3|c3]]|done].
  destruct (enableLogging s1)
    as [s2 [[]|e|c]]; [|by destruct (on_error E e s2) as [s3 [[]|e3|c3]]|done].
  unfold setOptions, mbind, M_bind, bind, get, call, modify.
  destruct (clArgs E (setting s2 "optionDefinitions")) as [o|e]; [done|].
  simpl. by destruct (on_error E e s2) as [s3 [[]|e3|c3]].
Qed.

(** X19. A construction that returns has gone through all three steps: the
    merge and the generation of the log methods completed, the argument
    parser returned, and what it returned for the merged [optionDefinitions]
    is what [getOptions] gives; [help] was not requested, and nothing has
    been printed.  A construction in which a step threw never returns. *)
Theorem returned_instance_is_complete E arg s s' :
  new_Cli E arg s = (s', Normal tt) ->
  exists s1 s2 o,
    mergeSettings (or_empty arg) (entry_state s) = (s1, Normal tt)
    /\ enableLogging s1 = (s2, Normal tt)
    /\ clArgs E (setting s' "optionDefinitions") = Returns o
    /\ s' = with_options s2 o
    /\ getOptions s' = obj o
    /\ truthy (get_prop (getOptions s') "help") = false
    /\ out s' = out s.
Proof.
  rewrite new_Cli_run.
  destruct (mergeSettings (or_empty arg) (entry_state s))
    as [s1 [[]|e|c]] eqn:Hmerge.
  - destruct (enableLogging s1) as [s2 [[]|e|c]] eqn:Hgen.
    + destruct (clArgs E (setting s2 "optionDefinitions")) as [o|e] eqn:Hargs.
      * unfold help_check, mbind, M_bind, bind, get.
        destruct (truthy (option_flag (with_options s2 o) "help")) eqn:Hhelp.
        -- intros H. by destruct (nr_showHelp E _ _ _ H).
        -- intros [= <-]. exists s1, s2, o. do 2 (split; [done|]).
           split; [exact Hargs|]. do 3 (split; [done|]). simpl.
           pose proof (enableLogging_fields s1) as (_ & _ & _ & Ho & _).
           rewrite Hgen in Ho. simpl in Ho. rewrite Ho.
           assert (out s1 = out (entry_state s)) as ->; [|done].
           pose proof (mergeSettings_keeps
                         (fun x => out x = out (entry_state s))
                         (or_empty arg) (entry_state s)) as Hout.
           rewrite Hmerge in Hout. apply Hout; [|done].
           intros x k Hx.
           destruct (key_effect_fields _ _ _
                       (StateFacts.merge_key_effect (or_empty arg) k x))
             as (_ & _ & _ & _ & Hk). congruence.
      * destruct (on_error E e s2) as [s3 [[]|e3|c3]] eqn:Herr; try done.
        by destruct (nr_on_error E e _ _ _ Herr).
    + destruct (on_error E e s2) as [s3 [[]|e3|c3]] eqn:Herr; try done.
      by destruct (nr_on_error E e _ _ _ Herr).
    + done.
  - destruct (on_error E e s1) as [s3 [[]|e3|c3]] eqn:Herr; try done.
    by destruct (nr_on_error E e _ _ _ Herr).
  - done.
Qed.

Lemma returned_instance_is_complete_witness :
  exists s1 s2 o,
    mergeSettings (or_empty more_options) (entry_state (boot document "now"))
    = (s1, Normal tt)
    /\ enableLogging s1 = (s2, Normal tt)
    /\ clArgs quiet_run
         (setting (fst (new_Cli quiet_run more_options (boot document "now")))
            "optionDefinitions") = Returns o
    /\ fst (new_Cli quiet_run more_options (boot document "now"))
       = with_options s2 o
    /\ getOptions (fst (new_Cli quiet_run more_options (boot document "now")))
       = obj o
    /\ truthy (get_prop
                 (getOptions
                    (fst (new_Cli quiet_run more_options
                            (boot document "now")))) "help") = false
    /\ out (fst (new_Cli quiet_run more_options (boot document "now")))
       = out (boot document "now").
Proof.
  apply (returned_instance_is_complete quiet_run more_options
           (boot document "now")).
  vm_compute. reflexivity.
Defined.

End Outcome.

(** ** The help request and the [catch] block *)

Module Handler.

Import Cli Inv Props Sample.
Import ObjFacts MergeFacts MergeMore LogFacts LoggingMore Construction
       Generation Lifecycle Outcome.

Lemma phases_keep_out arg s s1 c1 s2 c2 :
  mergeSettings (or_empty arg) (entry_state s) = (s1, c1) ->
  enableLogging s1 = (s2, c2) ->
  out s2 = out s.
Proof.
  intros Hmerge Hgen.
  pose proof (enableLogging_fields s1) as (_ & _ & _ & Ho & _).
  rewrite Hgen in Ho. simpl in Ho. rewrite Ho.
  pose proof (mergeSettings_keeps (fun x => out x = out (entry_state s))
                (or_empty arg) (entry_state s)) as Hout.
  rewrite Hmerge in Hout. apply Hout; [|done].
  intros x k Hx.
  destruct (key_effect_fields _ _ _
              (StateFacts.merge_key_effect (or_empty arg) k x))
    as (_ & _ & _ & _ & Hk). congruence.
Qed.

(** X20. When merge, generation and parsing complete and the parsed options
    hold a [help] that is set, the constructor asks the usage renderer for
    the text of the merged settings.  If the renderer returns, that text is
    printed, once and through [console.log], and the process ends with code
    0; nothing else has been printed.  If the renderer throws, the
    constructor throws what it threw, prints nothing and does not end the
    process. *)
Theorem help_request_prints_usage_and_exits E arg s s1 s2 o :
  mergeSettings (or_empty arg) (entry_state s) = (s1, Normal tt) ->
  enableLogging s1 = (s2, Normal tt) ->
  clArgs E (setting s2 "optionDefinitions") = Returns o ->
  truthy (get_prop (obj o) "help") = true ->
  new_Cli E arg s
  = match getUsage E (getHelpSections s2) with
    | Returns u =>
        (with_out (with_options s2 o) (out s ++ [Console "log" [u]]),
         Exit 0%Z)
    | Raises e => (with_out (with_options s2 o) (out s), Throw e)
    end.
Proof.
  intros Hmerge Hgen Hargs Hhelp.
  rewrite new_Cli_run, Hmerge, Hgen, Hargs.
  unfold help_check, mbind, M_bind, bind, get.
  change (option_flag (with_options s2 o) "help") with (get_prop (obj o) "help").
  rewrite Hhelp.
  unfold showHelp, mbind, M_bind, bind, get, emit, modify, exit.
  change (getHelpSections (with_options s2 o)) with (getHelpSections s2).
  rewrite <- (phases_keep_out arg s s1 _ s2 _ Hmerge Hgen).
  destruct (getUsage E (getHelpSections s2)) as [u|e]; simpl; [done|].
  by destruct s2.
Qed.

Lemma help_request_prints_usage_and_exits_witness :
  new_Cli asked_for_help (obj []) (boot document "now")
  = (with_out
       (with_options
          (fst (enableLogging (entry_state (boot document "now"))))
          [("help", VBool true)])
       [Console "log" [VStr "usage"]],
     Exit 0%Z).
Proof.
  apply (help_request_prints_usage_and_exits asked_for_help (obj [])
           (boot document "now") (entry_state (boot document "now"))
           (fst (enableLogging (entry_state (boot document "now"))))
           [("help", VBool true)]); reflexivity.
Defined.

(** The other case on the sample document: the renderer throws, and so does
    the constructor, with the console untouched. *)
Example broken_renderer_leaves_the_constructor :
  new_Cli broken_usage (obj []) (boot document "now")
  = (with_options
       (fst (enableLogging (entry_state (boot document "now"))))
       [("help", VBool true)],
     Throw (mk_error "TypeError" "Cannot read properties of undefined")).
Proof. vm_compute. reflexivity. Qed.

Lemma logger_choice (A : Type) (b1 b2 : bool) (f : value -> A) x y z :
  (if b1 then f x else if b2 then f y else f z)
  = f (if b1 then x else if b2 then y else z).
Proof. by destruct b1, b2. Qed.

(** X21. A failure caught before any log method exists is reported through
    [console.error], which is given one value: the message of what was
    thrown when that is a string, else its name when that is a string, else
    the thrown value itself.  [options.force] has been set.  The handler
    then fails on [this.debug]; it also fails, before reporting anything,
    when what was thrown is [null] or [undefined]. *)
Theorem early_failure_is_reported_on_console E e s :
  obj_get (logs s) "error" = None -> obj_get (logs s) "debug" = None ->
  (has_members e = true ->
     on_error E e s
     = (with_out (forced s) (out s ++ [Console "error" [reported e]]),
        Throw (mk_error "TypeError" "this.debug is not a function")))
  /\ (has_members e = false ->
        exists msg,
          on_error E e s = (forced s, Throw (mk_error "TypeError" msg))).
Proof.
  intros Herr Hdbg. split; intros He.
  - unfold on_error, call_method, mbind, M_bind, bind, modify, get.
    rewrite member_of_value by done. unfold ret at 1. cbv beta iota.
    change (logs (with_options s _)) with (logs s). rewrite Herr.
    unfold reported, emit, modify.
    destruct (jstype_eqb (typeof (get_prop e "message")) TString);
      [|destruct (jstype_eqb (typeof (get_prop e "name")) TString)];
      simpl; by rewrite Hdbg.
  - destruct e; try done; unfold on_error, mbind, M_bind, bind, modify, get;
      simpl; eauto.
Qed.

Lemma early_failure_is_reported_on_console_witness :
  on_error quiet_run (obj [("name", VStr "Oops")])
    (entry_state (boot document "now"))
  = (with_out (forced (entry_state (boot document "now")))
       [Console "error" [VStr "Oops"]],
     Throw (mk_error "TypeError" "this.debug is not a function")).
Proof.
  apply (proj1 (early_failure_is_reported_on_console quiet_run
                  (obj [("name", VStr "Oops")])
                  (entry_state (boot document "now")) eq_refl eq_refl)).
  reflexivity.
Defined.

(** An [Error] made without a message has none of its own: the empty
    string of [Error.prototype] is what the handler reports. *)
Example bare_error_reports_empty_message :
  reported (VObj (ErrorInst "TypeError") []) = VStr EmptyString
  /\ on_error quiet_run (VObj (ErrorInst "TypeError") [])
       (entry_state (boot document "now"))
     = (with_out (forced (entry_state (boot document "now")))
          [Console "error" [VStr EmptyString]],
        Throw (mk_error "TypeError" "this.debug is not a function")).
Proof. split; reflexivity. Qed.

Lemma forced_never_escalates cfg s x :
  truthy (setting s "allowForceNoThrow") = true ->
  option_flag s "force" = VBool true ->
  escalates cfg (with_out s x) = false.
Proof.
  intros Ha Hf. unfold escalates.
  change (setting (with_out s x) "allowForceNoThrow")
    with (setting s "allowForceNoThrow").
  change (option_flag (with_out s x) "force") with (option_flag s "force").
  rewrite Ha, Hf. apply andb_false_r.
Qed.

Lemma log_method_forced E method cls ps h args s :
  paints E (VObj cls ps) h ->
  truthy (setting s "allowForceNoThrow") = true ->
  option_flag s "force" = VBool true ->
  log_method E method (VObj cls ps) args s
  = (said E h method (VObj cls ps) args s, Normal tt).
Proof.
  intros Hc Ha Hf. rewrite (log_method_run E method cls ps h) by done.
  unfold said, escalates.
  rewrite Ha, Hf. rewrite andb_false_r.
  by destruct (visible (get_prop (VObj cls ps) "verbose") s).
Qed.

Lemma option_flag_forced s : option_flag (forced s) "force" = VBool true.
Proof.
  unfold option_flag, forced, obj, get_prop. simpl.
  by rewrite obj_get_set_eq.
Qed.

Lemma said_fields E h method cfg args s :
  let s' := said E h method cfg args s in
  store s' = store s /\ settings s' = settings s /\ options s' = options s
  /\ logs s' = logs s.
Proof.
  unfold said. by destruct (visible (get_prop cfg "verbose") s).
Qed.

(** X22. Let the thrown value be neither [null] nor [undefined], let
    [error] and [debug] be attached with configurations that are objects
    whose colors are absent, blank, no function of [colors] or styles of
    [colors], and let [allowForceNoThrow] be set.  Then the [catch] block
    reaches the help screen: setting [options.force] first keeps the [error]
    method from throwing again even when it is configured to throw; the
    report and the debug line are printed as far as their gates allow.  If
    the usage renderer returns, its text is printed and the process ends
    with code 0; if it throws, the block throws what it threw. *)
Theorem attached_loggers_report_and_exit E e s ce pe he cd pd hd :
  has_members e = true ->
  obj_get (logs s) "error" = Some (VObj ce pe) ->
  obj_get (logs s) "debug" = Some (VObj cd pd) ->
  paints E (VObj ce pe) he -> paints E (VObj cd pd) hd ->
  truthy (setting s "allowForceNoThrow") = true ->
  let s1 := said E he "error" (VObj ce pe) [reported e] (forced s) in
  let s2 := said E hd "debug" (VObj cd pd) [VStr "Caught Error:"; e] s1 in
  on_error E e s
  = match getUsage E (getHelpSections s) with
    | Returns u => (with_out s2 (out s2 ++ [Console "log" [u]]), Exit 0%Z)
    | Raises x => (s2, Throw x)
    end.
Proof.
  intros He Herr Hdbg Hce Hcd Hallow s1 s2.
  unfold on_error.
  unfold mbind at 1 2 3. unfold M_bind, bind at 1 2 3.
  unfold modify at 1, get at 1. fold (forced s).
  rewrite member_of_value by done. unfold ret at 1. cbv beta iota.
  change (logs (forced s)) with (logs s). rewrite Herr.
  rewrite (logger_choice (M unit)
             (jstype_eqb (typeof (get_prop e "message")) TString)
             (jstype_eqb (typeof (get_prop e "name")) TString)
             (fun x => log_method E "error" (VObj ce pe) [x])).
  fold (reported e).
  unfold mbind at 1. unfold M_bind, bind at 1.
  rewrite (log_method_forced E "error" ce pe he);
    [|done|done|apply option_flag_forced].
  fold s1.
  destruct (said_fields E he "error" (VObj ce pe) [reported e] (forced s))
    as (Hst1 & Hse1 & Hop1 & Hlg1). fold s1 in Hst1, Hse1, Hop1, Hlg1.
  unfold mbind at 1. unfold M_bind, bind at 1.
  unfold call_method. unfold mbind at 1. unfold M_bind, bind at 1.
  unfold get at 1. rewrite Hlg1. change (logs (forced s)) with (logs s).
  rewrite Hdbg.
  assert (setting s1 "allowForceNoThrow" = setting s "allowForceNoThrow")
    as Hset1 by (unfold setting, read; by rewrite Hst1, Hse1).
  assert (option_flag s1 "force" = VBool true) as Hforce1
    by (unfold option_flag; rewrite Hop1; apply option_flag_forced).
  rewrite (log_method_forced E "debug" cd pd hd); [|done|by rewrite Hset1|done].
  fold s2.
  destruct (said_fields E hd "debug" (VObj cd pd) [VStr "Caught Error:"; e] s1)
    as (Hst2 & Hse2 & _ & _). fold s2 in Hst2, Hse2.
  unfold showHelp, mbind, M_bind, bind, get, emit, modify, exit.
  assert (getHelpSections s2 = getHelpSections s) as ->.
  { unfold getHelpSections, setting, read.
    by rewrite Hst2, Hse2, Hst1, Hse1. }
  by destruct (getUsage E (getHelpSections s)).
Qed.

Lemma attached_loggers_report_and_exit_witness :
  on_error bad_argv (mk_error "UNKNOWN_OPTION" "Unknown option: --nope")
    (fst (enableLogging (entry_state (boot document "now"))))
  = (with_out
       (forced (fst (enableLogging (entry_state (boot document "now")))))
       [Console "error"
          [VStr (ansi "31" "ERROR");
           VStr (ansi "31" "Unknown option: --nope")];
        Console "log" [VStr "usage"]],
     Exit 0%Z).
Proof.
  apply (attached_loggers_report_and_exit bad_argv
           (mk_error "UNKNOWN_OPTION" "Unknown option: --nope")
           (fst (enableLogging (entry_state (boot document "now"))))
           Plain
           [("verbose", VBool false); ("throws", VBool true);
            ("prefix", VStr "ERROR"); ("color", VStr "red")]
           (Some (ansi "31"))
           Plain
           [("verbose", VBool true); ("prefix", VStr "DEBUG");
            ("color", VStr "cyan")]
           (Some (ansi "36"))); try reflexivity.
  - exact (conj eq_refl (palette_style bad_argv "red" "31" eq_refl eq_refl)).
  - exact (conj eq_refl (palette_style bad_argv "cyan" "36" eq_refl eq_refl)).
Defined.

End Handler.

(** ** Objects through [colorize], settings through the help screen, and
    overrides through the defaults *)

Module Composition.

Import Cli Inv Props Sample Extend.
Import ObjFacts StateFacts ExtendFacts MergeFacts SampleFacts MergeMore
       Sharing Generation.

Lemma obj_get_map_values {A} (g : string * A -> A) (ps : list (string * A)) k :
  obj_get (map (fun p => (fst p, g p)) ps) k
  = match obj_get ps k with
    | Some v => Some (g (k, v))
    | None => None
    end.
Proof.
  induction ps as [|[j v] ps IH]; simpl; [done|].
  destruct (String.eqb_spec j k) as [->|Hne]; [done|apply IH].
Qed.

(** X23. Given a plain object and, for a color, a string that is blank,
    names no function of [colors] or names a style of [colors], [colorize]
    never throws and leaves the state alone.  The object keeps its keys, in
    their order; a property that is not a string stays as it is, whatever it
    contains; a string property stays a string. *)
Theorem colorize_object_shape E ps c h s :
  colors_with E c h ->
  exists ps',
    colorize E (obj ps) (VStr c) s = (s, Normal (obj ps'))
    /\ map fst ps' = map fst ps
    /\ (forall k v, obj_get ps k = Some v -> typeof v <> TString ->
          obj_get ps' k = Some v)
    /\ (forall k v, obj_get ps k = Some v -> typeof v = TString ->
          exists y, obj_get ps' k = Some (VStr y)).
Proof.
  unfold colors_with, colorize, obj. destruct h as [f|].
  - intros (-> & g0 & -> & Hg).
    set (g := fun p : string * value =>
                if mem_string (fst p) (map fst (enumerable Plain ps))
                then paint f (snd p) else snd p).
    exists (map (fun p => (fst p, g p)) ps).
    split; [|split; [|split]].
    + unfold mbind, M_bind, bind.
      by rewrite (LogFacts.recolor_props_style g0 f _ _ s Hg).
    + rewrite map_map. by apply map_ext.
    + intros k v Hk Hv. rewrite obj_get_map_values, Hk. unfold g. simpl.
      rewrite paint_other by done. by destruct (mem_string k (map fst ps)).
    + intros k v Hk Hv. rewrite obj_get_map_values, Hk. unfold g. simpl.
      destruct v; try done. simpl.
      destruct (mem_string k (map fst ps)); eauto.
  - intros Hn.
    assert ((if blank c then None else color_fn E c) = None) as ->
      by (destruct Hn as [->| ->]; [done|by destruct (blank c)]).
    exists ps. split; [done|]. split; [done|]. split; [done|].
    intros k v Hk Hv. destruct v; try done. eauto.
Qed.

Lemma colorize_object_shape_witness :
  exists ps',
    colorize quiet_run
      (obj [("text", VStr "x"); ("nested", obj [("text", VStr "y")])])
      (VStr "red") (fresh document)
    = (fresh document, Normal (obj ps'))
    /\ map fst ps' = ["text"; "nested"]
    /\ obj_get ps' "nested" = Some (obj [("text", VStr "y")])
    /\ exists y, obj_get ps' "text" = Some (VStr y).
Proof.
  destruct (colorize_object_shape quiet_run
              [("text", VStr "x"); ("nested", obj [("text", VStr "y")])]
              "red" (Some (ansi "31")) (fresh document)
              (conj eq_refl
                 (LogFacts.palette_style quiet_run "red" "31"
                    eq_refl eq_refl)))
    as (ps' & Hrun & Hkeys & Hkeep & Hstr).
  exists ps'. split; [exact Hrun|]. split; [exact Hkeys|]. split.
  - apply (Hkeep "nested" (obj [("text", VStr "y")]));
      [reflexivity|discriminate].
  - apply (Hstr "text" (VStr "x")); reflexivity.
Defined.

(** X24. What the help screen and the argument parser are given after a
    completed merge of two [optionDefinitions] arrays is the default list
    followed by the caller's list. *)
Theorem help_lists_all_option_definitions s overrides d o s' :
  wf s -> NoDup (own_keys overrides) ->
  setting s "optionDefinitions" = VArr d ->
  own_get overrides "optionDefinitions" = VArr o ->
  mergeSettings overrides s = (s', Normal tt) ->
  getHelpSections s'
  = VArr [ obj [("header", setting s' "name");
                ("content", setting s' "description")];
           obj [("header", setting s' "helpHeader");
                ("optionList", VArr (d ++ o))] ].
Proof.
  intros Hwf Hnd Hd Ho Hrun. unfold getHelpSections.
  by rewrite (array_round s overrides "optionDefinitions" d o s').
Qed.

Lemma help_lists_all_option_definitions_witness :
  getHelpSections (fst (mergeSettings more_options (fresh document)))
  = VArr [ obj [("header", VStr "cli");
                ("content", VStr "A command line tool")];
           obj [("header", VStr "Options");
                ("optionList",
                 VArr [ obj [("name", VStr "help"); ("alias", VStr "h");
                             ("type", VFun "Boolean")];
                        obj [("name", VStr "verbose"); ("alias", VStr "v");
                             ("type", VFun "Boolean")];
                        obj [("name", VStr "help"); ("alias", VStr "h");
                             ("type", VFun "Boolean")];
                        obj [("name", VStr "file");
                             ("type", VFun "String")] ])] ].
Proof.
  apply (help_lists_all_option_definitions (fresh document) more_options
           [ obj [("name", VStr "help"); ("alias", VStr "h");
                  ("type", VFun "Boolean")];
             obj [("name", VStr "verbose"); ("alias", VStr "v");
                  ("type", VFun "Boolean")] ]
           [ obj [("name", VStr "help"); ("alias", VStr "h");
                  ("type", VFun "Boolean")];
             obj [("name", VStr "file"); ("type", VFun "String")] ]);
    try reflexivity.
  - apply wf_fresh.
  - distinct_strings.
Defined.

Lemma default_kept_by_other_round ov j s k :
  defaults_guarded s -> j <> k ->
  default_setting (fst (merge_key ov j s)) k = default_setting s k.
Proof.
  intros [Ha Hb] Hne.
  destruct (merge_key_shape ov j s)
    as [->|[[v ->]|(l & Hl & _ & _ & ->)]]; [done| |].
  - unfold default_setting. simpl.
    destruct (obj_get (defaults s) k) as [lk|] eqn:Hlk; [|done].
    apply read_bound_old. eauto.
  - unfold default_setting, read. simpl.
    destruct (obj_get (defaults s) k) as [lk|] eqn:Hlk; [|done].
    rewrite list_lookup_insert_ne; [done|].
    intros ->. apply Hne. eauto.
Qed.

Lemma alias_kept_by_other_round ov j s k :
  j <> k ->
  obj_get (settings (fst (merge_key ov j s))) k = obj_get (settings s) k
  /\ defaults (fst (merge_key ov j s)) = defaults s.
Proof.
  intros Hne. destruct (merge_key_effect ov j s) as [ |v|l v Hl]; simpl;
    try done.
  by rewrite obj_get_set_ne.
Qed.

Lemma defaults_after_rounds ov keys : forall s k,
  defaults_guarded s -> ~ In k keys ->
  default_setting (fst (forEach keys (merge_key ov) s)) k
  = default_setting s k.
Proof.
  induction keys as [|j keys IH]; intros s k Hg Hk; [done|].
  rewrite forEach_cons.
  assert (j <> k) as Hne by (intros ->; apply Hk; by left).
  pose proof (default_kept_by_other_round ov j s k Hg Hne) as Hstep.
  pose proof (guarded_round ov j s Hg) as Hg1.
  destruct (merge_key ov j s) as [s1 [[]|e|c]]; simpl in *; try done.
  rewrite IH; [done|done|]. intros H. apply Hk. by right.
Qed.

Lemma shared_round ov keys : forall s k c dps oc ops s',
  wf s -> defaults_guarded s -> NoDup keys -> In k keys ->
  obj_get (defaults s) k = obj_get (settings s) k ->
  setting s k = VObj c dps -> own_get ov k = VObj oc ops ->
  forEach keys (merge_key ov) s = (s', Normal tt) ->
  default_setting s' k
  = VObj c (extend_props assigned (enumerable oc ops) dps).
Proof.
  induction keys as [|j keys IH];
    intros s k c dps oc ops s' Hwf Hg Hnd Hin Hshare Hd Ho Hrun; [done|].
  apply NoDup_cons in Hnd as [Hfresh Hnd].
  rewrite forEach_cons in Hrun.
  destruct (String.eqb_spec j k) as [->|Hne].
  - pose proof (Construction.shared_mapping_is_mutated ov k s c dps oc ops
                  Hwf Hshare Hd Ho) as Hnew.
    pose proof (guarded_round ov k s Hg) as Hg1.
    destruct (merge_key ov k s) as [s1 [[]|e|c1]]; [|done|done].
    simpl in *.
    pose proof (defaults_after_rounds ov keys s1 k Hg1) as Hrest.
    rewrite Hrun in Hrest. simpl in Hrest. rewrite Hrest; [done|].
    by rewrite <- list_elem_of_In.
  - destruct Hin as [->|Hin]; [done|].
    pose proof (merge_key_effect ov j s) as Heff.
    pose proof (guarded_round ov j s Hg) as Hg1.
    destruct (alias_kept_by_other_round ov j s k Hne) as [Hset Hdef].
    destruct (merge_key ov j s) as [s1 [[]|e|c1]]; [|done|done].
    simpl in *.
    apply (IH s1 k c dps oc ops s'); try done.
    + by eapply key_effect_wf.
    + by rewrite Hset, Hdef.
    + rewrite <- Hd. by eapply key_effect_frame.
Qed.

(** X25. From the state in which the constructor calls it, a completed
    merge that overrides an object-valued default with an object rewrites
    the default itself: the defaults read afterwards hold, at that key, the
    extended object, the same one the instance holds. *)
Theorem object_overrides_reach_the_defaults s overrides k c dps oc ops s' :
  wf s -> settings s = defaults s -> NoDup (own_keys overrides) ->
  setting s k = VObj c dps -> own_get overrides k = VObj oc ops ->
  mergeSettings overrides s = (s', Normal tt) ->
  default_setting s' k
  = VObj c (extend_props assigned (enumerable oc ops) dps)
  /\ setting s' k = default_setting s' k.
Proof.
  intros Hwf Heq Hnd Hd Ho Hrun.
  assert (In k (own_keys overrides)) as Hin by (by eapply own_get_In).
  rewrite (mergeSettings_keys _ k) in Hrun by done.
  assert (default_setting s' k
          = VObj c (extend_props assigned (enumerable oc ops) dps)) as Hdef.
  { apply (shared_round overrides (own_keys overrides) s k c dps oc ops s');
      try done; [by apply entry_guarded|by rewrite Heq]. }
  split; [done|]. rewrite Hdef.
  destruct (round_of _ _ _ _ _ Hwf Hnd Hin Hrun)
    as (s1 & Hwf1 & Hs1 & _ & Hk).
  rewrite Hd in Hs1.
  destruct (merge_key_objects _ _ _ _ _ _ _ Hs1 Ho) as (l & Hl & Hstep).
  rewrite Hstep in Hk. simpl in Hk. by rewrite setting_written_eq in Hk.
Qed.

Lemma object_overrides_reach_the_defaults_witness :
  default_setting
    (fst (mergeSettings extra_method (entry_state (boot document "now"))))
    "logging"
  = obj [("log", obj [("verbose", VBool false)]);
         ("warn", warn_config); ("error", error_config);
         ("debug", debug_config);
         ("extra", obj [("verbose", VBool false)])]
  /\ setting
       (fst (mergeSettings extra_method (entry_state (boot document "now"))))
       "logging"
     = default_setting
         (fst (mergeSettings extra_method
                 (entry_state (boot document "now")))) "logging".
Proof.
  apply (object_overrides_reach_the_defaults
           (entry_state (boot document "now")) extra_method "logging" Plain
           [("log", obj [("verbose", VBool false)]);
            ("warn", warn_config); ("error", error_config);
            ("debug", debug_config)]
           Plain [("extra", obj [("verbose", VBool false)])]
           (fst (mergeSettings extra_method
                   (entry_state (boot document "now")))));
    try reflexivity.
  - apply (wf_fresh document).
  - distinct_strings.
Defined.

End Composition.
